(** * A shallow embedding of the agent service: per-session summarising
    memory, the streaming callback handler, tool dispatch, the bounded
    agent loop, the expression evaluator and the retrieval tool.

    Sources embedded:
    - src/agent_with_custom_history.py  (ConversationSummaryBufferMessageHistory,
      QueueCallbackHandler, execute_tool, CustomAgentExecutor)
    - src/tools/math_tools.py          (subtract, evaluate_expression)
    - src/tools/rag_tool.py            (retrieval_tool)

    External collaborators (the language model, the vector store and the
    CPython interpreter) are passed in as records of functions, so that
    every statement can be evaluated on a concrete collaborator. *)

From Stdlib Require Import QArith Qabs ZArith Ascii.
From stdpp Require Import base gmap strings list pretty.

Set Warnings "-register-all".
Open Scope Z_scope.

(* ------------------------------------------------------------------ *)
(** ** Python values, exceptions and a state/exception monad *)

(** Python values that flow through tool arguments and tool results.
    Floats are represented by the rational they denote. *)
Inductive Value :=
| VNone
| VBool (b : bool)
| VFloat (q : Q)
| VNonFinite (repr : string)   (* inf, -inf, nan *)
| VStr (s : string)
| VList (l : list Value)
| VDict (d : list (string * Value)).

(** Exceptions that can escape the modelled code. *)
Inductive Exc :=
| KeyError (key : string)
| IndexError (what : string)
| TypeError (msg : string)
| ToolRaised (msg : string)   (* an exception raised inside a tool body *)
| LLMError (msg : string).    (* a failure reported by the model service *)

(** Computations that thread a state [S] and may raise: a raised exception
    keeps the state reached so far, as Python's in-place mutation does. *)
Definition ST (S A : Type) : Type := S -> (Exc + A) * S.

Definition st_ret {S A} (a : A) : ST S A := fun s => (inr a, s).

Definition st_bind {S A B} (m : ST S A) (f : A -> ST S B) : ST S B :=
  fun s => match m s with
           | (inl e, s') => (inl e, s')
           | (inr a, s') => f a s'
           end.

Definition st_raise {S A} (e : Exc) : ST S A := fun s => (inl e, s).

Definition st_get {S} : ST S S := fun s => (inr s, s).

Definition st_put {S} (s : S) : ST S unit := fun _ => (inr tt, s).

Notation "'let*' x ':=' m 'in' k" := (st_bind m (fun x => k))
  (at level 200, x name, m at level 100, k at level 200).

(* ------------------------------------------------------------------ *)
(** ** Messages *)

(** One entry of [AIMessage.tool_calls]: {"name", "args", "id"}. *)
Record ToolCall := mkToolCall {
  tc_name : string;
  tc_args : list (string * Value);
  tc_id : string
}.

(** langchain_core messages.  [AIMessage] carries the extra field
    [tool_call_id] that [stream] sets when it builds the requests
    (None when absent).  A [ToolMessage]'s content is the value
    [tool_out] that [execute_tool] formats with f"{tool_out}". *)
Inductive BaseMessage :=
| SystemMessage (content : string)
| HumanMessage (content : string)
| AIMessage (content : string) (tool_calls : list ToolCall)
            (tool_call_id : option string)
| ToolMessage (content : Value) (tool_call_id : string).

(** Python's str() of a value; numbers are printed as their exact
    rational (CPython prints the shortest decimal of the double). *)
Fixpoint py_str (v : Value) : string :=
  match v with
  | VNone => "None"
  | VBool true => "True"
  | VBool false => "False"
  | VFloat q =>
      if decide (Qden q = 1%positive) then (pretty (Qnum q) +:+ ".0")%string
      else (pretty (Qnum q) +:+ "/" +:+ pretty (Z.pos (Qden q)))%string
  | VNonFinite r => r
  | VStr s => s
  | VList l => ("[" +:+ String.concat ", " (map py_str l) +:+ "]")%string
  | VDict d =>
      ("{" +:+ String.concat ", "
         (map (fun kv => ("'" +:+ kv.1 +:+ "': " +:+ py_str kv.2)%string) d)
         +:+ "}")%string
  end.

(** [msg.content] as text. *)
Definition content_text (m : BaseMessage) : string :=
  match m with
  | SystemMessage c | HumanMessage c => c
  | AIMessage c _ _ => c
  | ToolMessage v _ => py_str v
  end.

Definition is_system (m : BaseMessage) : bool :=
  match m with SystemMessage _ => true | _ => false end.

(* ------------------------------------------------------------------ *)
(** ** Python list slicing *)

(** Normalise a slice bound as CPython does for [l[i:]] and [l[:i]]. *)
Definition py_slice_bound (len i : Z) : nat :=
  Z.to_nat (if i <? 0 then Z.max 0 (len + i) else Z.min i len).

(** [l[:b]] *)
Definition py_slice_to {A} (b : Z) (l : list A) : list A :=
  take (py_slice_bound (Z.of_nat (length l)) b) l.

(** [l[a:]] *)
Definition py_slice_from {A} (a : Z) (l : list A) : list A :=
  drop (py_slice_bound (Z.of_nat (length l)) a) l.

(* ------------------------------------------------------------------ *)
(** ** The language model, as the code uses it *)

(** A streamed chunk of one model turn: its text and, when the chunk
    carries a tool-call delta, the first entry of
    [additional_kwargs["tool_calls"]]: id, function name and argument
    fragment (None stands for a null field). *)
Record Delta := mkDelta {
  d_id : option string;
  d_name : option string;
  d_args : option string
}.

Record Chunk := mkChunk {
  ch_content : string;
  ch_tool_call : option Delta
}.

(** The model service.  [llm_invoke] answers a prompt with the content
    of its reply; [llm_turn] is one streamed agent turn on
    (input, chat_history, agent_scratchpad): the chunks it yields and
    whether the stream then closed normally ([None]) or failed.
    [parse_args] is langchain's parse of an accumulated argument buffer
    into the tool-call arguments ([None] when it is not a JSON object). *)
Record LLM := mkLLM {
  llm_invoke : list BaseMessage -> Exc + string;
  llm_turn : string -> list BaseMessage -> list BaseMessage ->
             list Chunk * option Exc;
  parse_args : string -> option (list (string * Value))
}.

(* ------------------------------------------------------------------ *)
(** ** ConversationSummaryBufferMessageHistory *)

Record History := mkHistory {
  messages : list BaseMessage;
  k : Z
}.

Definition summary_instruction : string :=
  "Given the existing conversation summary and the new messages, generate a new summary of the conversation. Ensure to keep as much relevant information as possible.".

Definition newline : string := String.String (ascii_of_nat 10) EmptyString.

(** [summary_prompt.format_messages(existing_summary=..., old_messages=...)] *)
Definition summary_messages (existing_summary_text old_messages_text : string)
  : list BaseMessage :=
  [SystemMessage summary_instruction;
   HumanMessage ("Existing conversation summary:" +:+ newline +:+
                 existing_summary_text +:+ newline +:+ newline +:+
                 "New messages:" +:+ newline +:+ old_messages_text)%string].

(** [add_messages] (src/agent_with_custom_history.py, lines 53-92). *)
Definition add_messages (llm : LLM) (new : list BaseMessage) : ST History unit :=
  fun h =>
    (* pop a leading SystemMessage *)
    let '(existing_summary, rest) :=
      match messages h with
      | SystemMessage c :: r => (Some c, r)
      | l => (None, l)
      end in
    (* self.messages.extend(messages) *)
    let ms := rest ++ new in
    let kk := k h in
    if Z.of_nat (length ms) >? kk then
      let num_to_drop := Z.of_nat (length ms) - kk in
      let old_messages := py_slice_to num_to_drop ms in
      let kept := py_slice_from (- kk) ms in
      let existing_summary_text :=
        match existing_summary with Some c => c | None => EmptyString end in
      let old_messages_text :=
        String.concat newline (map content_text old_messages) in
      match llm_invoke llm (summary_messages existing_summary_text old_messages_text) with
      | inl e => (inl e, mkHistory kept kk)
      | inr new_summary => (inr tt, mkHistory (SystemMessage new_summary :: kept) kk)
      end
    else
      (* old_messages is None: return *)
      (inr tt, mkHistory ms kk).

(** Number of stored non-summary messages. *)
Definition non_system_count (h : History) : nat :=
  length (List.filter (fun m => negb (is_system m)) (messages h)).

(* ------------------------------------------------------------------ *)
(** ** QueueCallbackHandler *)

(** Items put on the asyncio queue: a chunk ([kwargs.get("chunk")],
    possibly None) or one of the two marker strings. *)
Inductive QueueItem :=
| QChunk (c : option Chunk)
| QDone       (* "<<DONE>>" *)
| QStepEnd.   (* "<<STEP_END>>" *)

Record Handler := mkHandler {
  queue : list QueueItem;   (* oldest first; put_nowait appends *)
  final_answer_seen : bool
}.

Definition put_nowait (x : QueueItem) (h : Handler) : Handler :=
  mkHandler (queue h ++ [x]) (final_answer_seen h).

(** [chunk.message.additional_kwargs["tool_calls"][0]["function"]["name"] == "final_answer"] *)
Definition names_final_answer (c : Chunk) : bool :=
  match ch_tool_call c with
  | Some d => bool_decide (d_name d = Some "final_answer")
  | None => false
  end.

(** [on_llm_new_token] *)
Definition on_llm_new_token (chunk : option Chunk) (h : Handler) : Handler :=
  let seen :=
    match chunk with
    | Some c => if names_final_answer c then true else final_answer_seen h
    | None => final_answer_seen h
    end in
  put_nowait (QChunk chunk) (mkHandler (queue h) seen).

(** [on_llm_end] *)
Definition on_llm_end (h : Handler) : Handler :=
  if final_answer_seen h then put_nowait QDone h else put_nowait QStepEnd h.

(** [on_llm_error] is not overridden: AsyncCallbackHandler's default does
    nothing. *)
Definition on_llm_error (_ : Exc) (h : Handler) : Handler := h.

(** The callbacks langchain fires for one streamed model turn: one
    [on_llm_new_token] per chunk, then [on_llm_end] when the stream closes
    normally or [on_llm_error] when it fails. *)
Definition handler_turn (chunks : list Chunk) (outcome : option Exc) (h : Handler)
  : Handler :=
  let h1 := foldl (fun h c => on_llm_new_token (Some c) h) h chunks in
  match outcome with
  | None => on_llm_end h1
  | Some e => on_llm_error e h1
  end.

Definition is_marker (x : QueueItem) : bool :=
  match x with QChunk _ => false | _ => true end.

Definition markers (q : list QueueItem) : list QueueItem := List.filter is_marker q.

(* ------------------------------------------------------------------ *)
(** ** Reconstruction of tool calls in [stream] *)

(** An entry of [outputs]: the AIMessageChunk accumulated by [+=]. *)
Record Acc := mkAcc {
  acc_content : string;
  acc_id : option string;
  acc_name : option string;
  acc_args : string
}.

(** langchain's merge of two string fields of a tool-call chunk
    ([merge_dicts]): a null side keeps the other, two strings concatenate. *)
Definition merge_field (l r : option string) : option string :=
  match l, r with
  | None, _ => r
  | _, None => l
  | Some a, Some b => Some (a +:+ b)
  end.

(** [outputs[-1] += token]: content concatenates; the tool-call delta of
    the token merges into the accumulated call (the provider numbers all
    fragments of one call with the same index). *)
Definition acc_add (a : Acc) (c : Chunk) : Acc :=
  match ch_tool_call c with
  | Some d =>
      mkAcc (acc_content a +:+ ch_content c) (merge_field (acc_id a) (d_id d))
            (merge_field (acc_name a) (d_name d))
            (acc_args a +:+ default EmptyString (d_args d))
  | None => mkAcc (acc_content a +:+ ch_content c) (acc_id a) (acc_name a) (acc_args a)
  end.

Definition acc_start (c : Chunk) (d : Delta) : Acc :=
  mkAcc (ch_content c) (d_id d) (d_name d) (default EmptyString (d_args d)).

(** Python truthiness of [tool_calls[0]["id"]]. *)
Definition id_truthy (i : option string) : bool :=
  match i with Some s => negb (bool_decide (s = EmptyString)) | None => false end.

(** The body of [async for token in response.astream(...)]. *)
Definition accumulate (outputs : list Acc) (c : Chunk) : Exc + list Acc :=
  match ch_tool_call c with
  | Some d =>
      if id_truthy (d_id d) then inr (outputs ++ [acc_start c d])
      else match last outputs with
           | Some a => inr (removelast outputs ++ [acc_add a c])
           | None => inl (IndexError "list index out of range")
           end
  | None => inr outputs
  end.

Fixpoint reconstruct_from (outputs : list Acc) (cs : list Chunk) : Exc + list Acc :=
  match cs with
  | [] => inr outputs
  | c :: cs' =>
      match accumulate outputs c with
      | inl e => inl e
      | inr o => reconstruct_from o cs'
      end
  end.

(** The [outputs] list built over a whole turn. *)
Definition reconstruct (cs : list Chunk) : Exc + list Acc := reconstruct_from [] cs.

(** [x.tool_calls] of an accumulated chunk: its argument buffer is parsed
    ([{}] when empty); a buffer that is not a JSON object makes it an
    invalid tool call, leaving [tool_calls] empty. *)
Definition acc_tool_calls (llm : LLM) (a : Acc) : list ToolCall :=
  let parsed := if bool_decide (acc_args a = EmptyString) then Some []
                else parse_args llm (acc_args a) in
  match parsed with
  | Some args => [mkToolCall (default EmptyString (acc_name a)) args (default EmptyString (acc_id a))]
  | None => []
  end.

(** [AIMessage(content=x.content, tool_calls=x.tool_calls,
    tool_call_id=x.tool_calls[0]["id"])] *)
Definition to_request (llm : LLM) (a : Acc) : Exc + BaseMessage :=
  match acc_tool_calls llm a with
  | (t :: _) as tcs => inr (AIMessage (acc_content a) tcs (Some (tc_id t)))
  | [] => inl (IndexError "list index out of range")
  end.

Fixpoint map_exc {A B} (f : A -> Exc + B) (l : list A) : Exc + list B :=
  match l with
  | [] => inr []
  | x :: l' =>
      match f x with
      | inl e => inl e
      | inr y => match map_exc f l' with inl e => inl e | inr ys => inr (y :: ys) end
      end
  end.

(** ** Spec-side reading of the reconstruction (for the refinement claim):
    "a delta bearing a non-empty id starts a new request; a delta without
    an id appends its argument fragment to the most recently started
    request's argument buffer".  A request is read as its id and its
    argument buffer. *)
Definition delta_fragment (c : Chunk) : string :=
  match ch_tool_call c with Some d => default EmptyString (d_args d) | None => EmptyString end.

(** The fragments of the id-less deltas that follow, up to the next
    id-bearing delta. *)
Fixpoint trailing_fragments (cs : list Chunk) : string :=
  match cs with
  | [] => EmptyString
  | c :: cs' =>
      match ch_tool_call c with
      | Some d => if id_truthy (d_id d) then EmptyString
                  else (default EmptyString (d_args d) +:+ trailing_fragments cs')%string
      | None => trailing_fragments cs'
      end
  end.

Fixpoint spec_requests (cs : list Chunk) : list (option string * string) :=
  match cs with
  | [] => []
  | c :: cs' =>
      match ch_tool_call c with
      | Some d =>
          if id_truthy (d_id d)
          then (d_id d, (default EmptyString (d_args d) +:+ trailing_fragments cs')%string)
                 :: spec_requests cs'
          else spec_requests cs'
      | None => spec_requests cs'
      end
  end.

Definition request_view (a : Acc) : option string * string := (acc_id a, acc_args a).

Definition id_bearing (c : Chunk) : bool :=
  match ch_tool_call c with Some d => id_truthy (d_id d) | None => false end.

(** No tool-call delta without an id comes before the first id-bearing one. *)
Fixpoint first_delta_has_id (cs : list Chunk) : bool :=
  match cs with
  | [] => true
  | c :: cs' =>
      match ch_tool_call c with
      | Some d => id_truthy (d_id d)
      | None => first_delta_has_id cs'
      end
  end.

(* ------------------------------------------------------------------ *)
(** ** evaluate_expression (src/tools/math_tools.py, lines 27-50) *)

(** The parsed expression handed to [compile(expr, "<string>", "eval")]:
    the fragment of Python's expression syntax the model covers. *)
Inductive BinOp := OAdd | OSub | OMul | ODiv | OPow | OMod | OFloorDiv.

Inductive PyExpr :=
| ENum (q : Q)
| EStr (s : string)
| EName (x : string)
| EAttr (e : PyExpr) (attr : string)
| ECall (f : PyExpr) (args : list PyExpr)
| ELambda (params : list string) (body : PyExpr)
| EBinOp (op : BinOp) (l r : PyExpr).

(** A code object: [co_names] and the nested code objects among
    [co_consts] (one per lambda). *)
Inductive CodeObj := mkCode {
  co_names : list string;
  co_consts : list CodeObj
}.

(** Names the compiler puts in [co_names] for [e] in a scope whose local
    and free variables are [locals]: global/module-level names and
    attribute names; lambda bodies go to their own code object. *)
Fixpoint names_of (locals : list string) (e : PyExpr) : list string :=
  match e with
  | ENum _ | EStr _ | ELambda _ _ => []
  | EName x => if bool_decide (x ∈ locals) then [] else [x]
  | EAttr e' a => names_of locals e' ++ [a]
  | ECall f args => names_of locals f ++ concat (map (names_of locals) args)
  | EBinOp _ l r => names_of locals l ++ names_of locals r
  end.

(** The code objects of the lambdas of [e], compiled in scope [locals]. *)
Fixpoint consts_of (locals : list string) (e : PyExpr) : list CodeObj :=
  match e with
  | ENum _ | EStr _ | EName _ => []
  | EAttr e' _ => consts_of locals e'
  | ECall f args => consts_of locals f ++ concat (map (consts_of locals) args)
  | EBinOp _ l r => consts_of locals l ++ consts_of locals r
  | ELambda ps body =>
      [mkCode (names_of (ps ++ locals) body) (consts_of (ps ++ locals) body)]
  end.

(** [compile(expr, "<string>", "eval")] at module level. *)
Definition py_compile (e : PyExpr) : CodeObj := mkCode (names_of [] e) (consts_of [] e).

(** Every name of a code object and of the code objects nested in it. *)
Fixpoint all_co_names (c : CodeObj) : list string :=
  match c with
  | mkCode ns cs => ns ++ concat (map all_co_names cs)
  end.

(** The public names of the math module (CPython 3.11). *)
Definition math_names : list string :=
  ["acos"; "acosh"; "asin"; "asinh"; "atan"; "atan2"; "atanh"; "cbrt"; "ceil";
   "comb"; "copysign"; "cos"; "cosh"; "degrees"; "dist"; "e"; "erf"; "erfc";
   "exp"; "exp2"; "expm1"; "fabs"; "factorial"; "floor"; "fmod"; "frexp";
   "fsum"; "gamma"; "gcd"; "hypot"; "inf"; "isclose"; "isfinite"; "isinf";
   "isnan"; "isqrt"; "lcm"; "ldexp"; "lgamma"; "log"; "log10"; "log1p"; "log2";
   "modf"; "nan"; "nextafter"; "perm"; "pi"; "pow"; "prod"; "radians";
   "remainder"; "sin"; "sinh"; "sqrt"; "tan"; "tanh"; "tau"; "trunc"; "ulp"].

(** The keys of [allowed_names]. *)
Definition allowed (n : string) : bool :=
  bool_decide (n ∈ math_names) || bool_decide (n = "abs") || bool_decide (n = "round").

(** Runtime values of the interpreter model. *)
Inductive PyVal :=
| PNum (q : Q)                     (* int or finite float *)
| PNonFinite (repr : string)       (* inf, -inf, nan *)
| PStr (s : string)
| PBuiltin (module name : string)  (* builtin function [name] of [module] *)
| PModule (name : string)
| PDict (entries : list (string * PyVal))
| PClosure (params : list string) (body : PyExpr) (env : list (string * PyVal)).

Inductive PyOutcome :=
| POk (v : PyVal)
| PRaise (msg : string).

(** The parts of CPython the model leaves open: calls of builtins other
    than [__import__], [os.system] and [abs], the arithmetic beyond
    + - * / on numbers, attribute lookups outside the table below, and
    float() of a string. *)
Record PyRuntime := mkPyRuntime {
  rt_call : string -> string -> list PyVal -> PyOutcome;
  rt_binop : BinOp -> PyVal -> PyVal -> PyOutcome;
  rt_getattr : PyVal -> string -> PyOutcome;
  rt_float_of_str : string -> PyOutcome
}.

(** IEEE doubles of math.pi, math.e and math.tau. *)
Definition double_pi : Q := 884279719003555 # 281474976710656.
Definition double_e : Q := 6121026514868073 # 2251799813685248.
Definition double_tau : Q := 884279719003555 # 140737488355328.

Definition math_member (n : string) : PyVal :=
  if bool_decide (n = "pi") then PNum double_pi
  else if bool_decide (n = "e") then PNum double_e
  else if bool_decide (n = "tau") then PNum double_tau
  else if bool_decide (n = "inf") then PNonFinite "inf"
  else if bool_decide (n = "nan") then PNonFinite "nan"
  else PBuiltin "math" n.

(** [allowed_names[n]] *)
Definition allowed_lookup (n : string) : option PyVal :=
  if bool_decide (n = "abs") then Some (PBuiltin "builtins" "abs")
  else if bool_decide (n = "round") then Some (PBuiltin "builtins" "round")
  else if bool_decide (n ∈ math_names) then Some (math_member n)
  else None.

Definition builtins_names : list string :=
  ["__import__"; "abs"; "round"; "eval"; "exec"; "open"; "getattr"].

(** Attribute lookup: the facts of CPython the model relies on
    ([abs.__self__] is the builtins module, whose [__import__] loads
    a module; [os.system] runs a shell command). *)
Definition py_getattr (rt : PyRuntime) (v : PyVal) (a : string) : PyOutcome :=
  match v with
  | PBuiltin m n =>
      if bool_decide (a = "__self__") then POk (PModule m)
      else if bool_decide (a = "__name__") then POk (PStr n)
      else rt_getattr rt v a
  | PModule "builtins" =>
      if bool_decide (a ∈ builtins_names) then POk (PBuiltin "builtins" a)
      else rt_getattr rt v a
  | PModule "os" =>
      if bool_decide (a = "system") then POk (PBuiltin "posix" "system")
      else rt_getattr rt v a
  | PModule "math" =>
      if bool_decide (a ∈ math_names) then POk (math_member a) else rt_getattr rt v a
  | _ => rt_getattr rt v a
  end.

(** Where a name is looked up: the module-level code run by [eval]
    (LOAD_NAME: the locals [allowed_names], then the globals
    [{"__builtins__": {}}], then the empty builtins), or a lambda body
    (its locals and free variables, then the same globals). *)
Inductive Scope := Top | Fun (env : list (string * PyVal)).

Definition globals_lookup (x : string) : PyOutcome :=
  if bool_decide (x = "__builtins__") then POk (PDict [])
  else PRaise ("name '" +:+ x +:+ "' is not defined")%string.

Fixpoint assoc {A} (x : string) (l : list (string * A)) : option A :=
  match l with
  | [] => None
  | (y, v) :: l' => if bool_decide (x = y) then Some v else assoc x l'
  end.

Definition lookup_name (sc : Scope) (x : string) : PyOutcome :=
  match sc with
  | Top => match allowed_lookup x with Some v => POk v | None => globals_lookup x end
  | Fun env => match assoc x env with Some v => POk v | None => globals_lookup x end
  end.

Definition scope_env (sc : Scope) : list (string * PyVal) :=
  match sc with Top => [] | Fun env => env end.

Definition py_binop (rt : PyRuntime) (op : BinOp) (a b : PyVal) : PyOutcome :=
  match op, a, b with
  | OAdd, PNum x, PNum y => POk (PNum (x + y)%Q)
  | OSub, PNum x, PNum y => POk (PNum (x - y)%Q)
  | OMul, PNum x, PNum y => POk (PNum (x * y)%Q)
  | ODiv, PNum x, PNum y =>
      if Qeq_bool y 0 then PRaise "division by zero" else POk (PNum (x / y)%Q)
  | _, _, _ => rt_binop rt op a b
  end.

(** CPython's default recursion limit bounds the depth of lambda calls. *)
Definition recursion_limit : nat := 1000.

Definition importable : list string := ["os"; "math"; "builtins"].

(** [eval(code, {"__builtins__": {}}, allowed_names)], threading the list
    of shell commands run by [os.system]. *)
Fixpoint py_eval (depth : nat) (rt : PyRuntime)
  : Scope -> PyExpr -> list string -> PyOutcome * list string :=
  fix ev sc e tr :=
    match e with
    | ENum q => (POk (PNum q), tr)
    | EStr s => (POk (PStr s), tr)
    | EName x => (lookup_name sc x, tr)
    | EAttr e' a =>
        match ev sc e' tr with
        | (POk v, tr') => (py_getattr rt v a, tr')
        | r => r
        end
    | EBinOp op l r =>
        match ev sc l tr with
        | (POk a, tr1) =>
            match ev sc r tr1 with
            | (POk b, tr2) => (py_binop rt op a b, tr2)
            | res => res
            end
        | res => res
        end
    | ELambda ps body => (POk (PClosure ps body (scope_env sc)), tr)
    | ECall f args =>
        match ev sc f tr with
        | (POk fv, tr1) =>
            let fix ev_args (xs : list PyExpr) (tr : list string)
              : (string + list PyVal) * list string :=
              match xs with
              | [] => (inr [], tr)
              | x :: xs' =>
                  match ev sc x tr with
                  | (POk v, tr') =>
                      match ev_args xs' tr' with
                      | (inr vs, tr'') => (inr (v :: vs), tr'')
                      | (inl m, tr'') => (inl m, tr'')
                      end
                  | (PRaise m, tr') => (inl m, tr')
                  end
              end in
            match ev_args args tr1 with
            | (inl m, tr2) => (PRaise m, tr2)
            | (inr vs, tr2) =>
                match fv with
                | PClosure ps body env =>
                    if negb (Nat.eqb (length ps) (length vs)) then
                      (PRaise "<lambda>() got a wrong number of positional arguments", tr2)
                    else match depth with
                         | O => (PRaise "maximum recursion depth exceeded", tr2)
                         | S d => py_eval d rt (Fun (combine ps vs ++ env)) body tr2
                         end
                | PBuiltin "builtins" "__import__" =>
                    match vs with
                    | [PStr m] =>
                        if bool_decide (m ∈ importable) then (POk (PModule m), tr2)
                        else (PRaise ("No module named '" +:+ m +:+ "'")%string, tr2)
                    | _ => (rt_call rt "builtins" "__import__" vs, tr2)
                    end
                | PBuiltin "posix" "system" =>
                    match vs with
                    | [PStr cmd] => (POk (PNum 0), tr2 ++ [cmd])
                    | _ => (rt_call rt "posix" "system" vs, tr2)
                    end
                | PBuiltin "builtins" "abs" =>
                    match vs with
                    | [PNum q] => (POk (PNum (Qabs q)), tr2)
                    | _ => (rt_call rt "builtins" "abs" vs, tr2)
                    end
                | PBuiltin m n => (rt_call rt m n vs, tr2)
                | _ => (PRaise "object is not callable", tr2)
                end
            end
        | res => res
        end
    end.

(** What [safe_eval] returns: [float(result)] or the text [f"Error: {e}"]. *)
Inductive EvalResult :=
| RFloat (q : Q)
| RNonFinite (repr : string)
| RError (text : string).

(** [float(result)] *)
Definition py_float (rt : PyRuntime) (v : PyVal) : string + EvalResult :=
  match v with
  | PNum q => inr (RFloat q)
  | PNonFinite r => inr (RNonFinite r)
  | PStr s =>
      match rt_float_of_str rt s with
      | POk (PNum q) => inr (RFloat q)
      | POk (PNonFinite r) => inr (RNonFinite r)
      | PRaise m => inl m
      | POk _ => inl "could not convert string to float"
      end
  | _ => inl "float() argument must be a string or a real number"
  end.

(** [evaluate_expression]: the name check over [code.co_names], then
    [eval]; every exception is caught and returned as text.  The second
    component lists the shell commands the evaluation ran. *)
Definition evaluate_expression (rt : PyRuntime) (e : PyExpr) : EvalResult * list string :=
  let code := py_compile e in
  match List.find (fun n => negb (allowed n)) (co_names code) with
  | Some n =>
      (RError ("Error: Use of '" +:+ n +:+ "' not allowed in math expressions.")%string, [])
  | None =>
      match py_eval recursion_limit rt Top e [] with
      | (PRaise m, tr) => (RError ("Error: " +:+ m)%string, tr)
      | (POk v, tr) =>
          match py_float rt v with
          | inl m => (RError ("Error: " +:+ m)%string, tr)
          | inr r => (r, tr)
          end
      end
  end.

(* ------------------------------------------------------------------ *)
(** ** retrieval_tool (src/tools/rag_tool.py) *)

(** A retrieved chunk: a Document (its page_content) or a plain string. *)
Inductive RetrievedChunk :=
| RDoc (page_content : string)
| RText (s : string).

Definition chunk_text (c : RetrievedChunk) : string :=
  match c with RDoc p => p | RText s => s end.

(** THRESHOLD = 0.7 *)
Definition THRESHOLD : Q := 7 # 10.

Definition no_docs_sentinel : string := "No relevant documents found.".

Definition next_chunk_sep : string :=
  (newline +:+ newline +:+ "---NEXT-CHUNK---" +:+ newline +:+ newline)%string.

(** Step 3: keep the chunks whose score is not below THRESHOLD. *)
Fixpoint top_texts (results : list (RetrievedChunk * Q)) : list string :=
  match results with
  | [] => []
  | (c, score) :: rs =>
      (* [if score < THRESHOLD: continue] *)
      if Qle_bool THRESHOLD score then chunk_text c :: top_texts rs else top_texts rs
  end.

(** The text [retrieval_tool] returns for the (chunk, score) pairs the
    vector store retrieved. *)
Definition retrieval_answer (results : list (RetrievedChunk * Q)) : string :=
  match results with
  | [] => no_docs_sentinel
  | _ =>
      match top_texts results with
      | [] => no_docs_sentinel
      | ts => String.concat next_chunk_sep ts
      end
  end.

(* ------------------------------------------------------------------ *)
(** ** Tools and execute_tool *)

(** The collaborators the tools call.  [similarity_search] stands for
    building the embeddings client and the Chroma store and calling
    [similarity_search_with_relevance_scores(query, k=3)]; [float_pow] is
    Python's [x ** y]; [parse_expr] is the parser of [compile] (a syntax
    error gives its message); [runtime] is the interpreter model.
    [completion_order count m] is the order in which the [m] tool tasks of
    turn [count] finish. *)
Record Env := mkEnv {
  similarity_search : string -> Exc + list (RetrievedChunk * Q);
  float_pow : Q -> Q -> Exc + Value;
  parse_expr : string -> string + PyExpr;
  runtime : PyRuntime;
  completion_order : Z -> nat -> list nat
}.

(** A tool coroutine: its parameters (name, has a default) and its body
    on the keyword arguments. *)
Record ToolFn := mkToolFn {
  fn_params : list (string * bool);
  fn_body : list (string * Value) -> Exc + Value
}.

(** Calling the tool with keyword arguments [tool_args]: Python's binding of keyword arguments. *)
Definition call_kwargs (f : ToolFn) (kwargs : list (string * Value)) : Exc + Value :=
  match List.find (fun kv => negb (bool_decide (kv.1 ∈ map fst (fn_params f)))) kwargs with
  | Some (n, _) => inl (TypeError ("got an unexpected keyword argument '" +:+ n +:+ "'")%string)
  | None =>
      match List.find (fun p => negb p.2 && negb (bool_decide (p.1 ∈ map fst kwargs)))
              (fn_params f) with
      | Some (n, _) => inl (TypeError ("missing 1 required positional argument: '" +:+ n +:+ "'")%string)
      | None => fn_body f kwargs
      end
  end.

Definition py_truthy (v : Value) : bool :=
  match v with
  | VNone => false
  | VBool b => b
  | VFloat q => negb (Qeq_bool q 0)
  | VNonFinite _ => true
  | VStr s => negb (bool_decide (s = EmptyString))
  | VList l => negb (bool_decide (l = []))
  | VDict d => negb (bool_decide (d = []))
  end.

Definition arg (n : string) (args : list (string * Value)) : Value :=
  default VNone (assoc n args).

(** Binary float operations; operands other than numbers are outside the
    model and raise TypeError. *)
Definition num_op (f : Q -> Q -> Q) (x y : Value) : Exc + Value :=
  match x, y with
  | VFloat a, VFloat b => inr (VFloat (f a b))
  | _, _ => inl (TypeError "unsupported operand type(s)")
  end.

Definition xy_params : list (string * bool) := [("x", false); ("y", false)].

(** [add]: x + y *)
Definition add (x y : Q) : Q := (x + y)%Q.
(** [subtract]: "Subtract 'x' from 'y'." returns y - x *)
Definition subtract (x y : Q) : Q := (y - x)%Q.
(** [multiply]: x * y *)
Definition multiply (x y : Q) : Q := (x * y)%Q.

Definition add_tool : ToolFn :=
  mkToolFn xy_params (fun a => num_op add (arg "x" a) (arg "y" a)).
Definition subtract_tool : ToolFn :=
  mkToolFn xy_params (fun a => num_op subtract (arg "x" a) (arg "y" a)).
Definition multiply_tool : ToolFn :=
  mkToolFn xy_params (fun a => num_op multiply (arg "x" a) (arg "y" a)).
Definition exponentiate_tool (env : Env) : ToolFn :=
  mkToolFn xy_params (fun a =>
    match arg "x" a, arg "y" a with
    | VFloat x, VFloat y => float_pow env x y
    | _, _ => inl (TypeError "unsupported operand type(s)")
    end).

(** [final_answer]: {"answer": answer, "tools_used": tools_used or []} *)
Definition final_answer_tool : ToolFn :=
  mkToolFn [("answer", false); ("tools_used", true)] (fun a =>
    let tu := arg "tools_used" a in
    inr (VDict [("answer", arg "answer" a);
                ("tools_used", if py_truthy tu then tu else VList [])])).

(** [retrieval_tool(query)]: no other parameter. *)
Definition retrieval_tool (env : Env) : ToolFn :=
  mkToolFn [("query", false)] (fun a =>
    match arg "query" a with
    | VStr q =>
        match similarity_search env q with
        | inl e => inl e
        | inr results => inr (VStr (retrieval_answer results))
        end
    | _ => inl (TypeError "query must be a string")
    end).

Definition eval_result_value (r : EvalResult) : Value :=
  match r with
  | RFloat q => VFloat q
  | RNonFinite s => VNonFinite s
  | RError t => VStr t
  end.

(** [evaluate_expression(expr)]: a syntax error is caught by [safe_eval]
    like every other exception. *)
Definition evaluate_expression_tool (env : Env) : ToolFn :=
  mkToolFn [("expr", false)] (fun a =>
    match arg "expr" a with
    | VStr s =>
        match parse_expr env s with
        | inl msg => inr (VStr ("Error: " +:+ msg)%string)
        | inr e => inr (eval_result_value (evaluate_expression (runtime env) e).1)
        end
    | _ => inr (VStr "Error: compile() arg 1 must be a string, bytes or AST object")
    end).

(** [name2tool = {tool.name: tool.coroutine for tool in tools}] *)
Definition name2tool (env : Env) : list (string * ToolFn) :=
  [("add", add_tool); ("subtract", subtract_tool); ("multiply", multiply_tool);
   ("exponentiate", exponentiate_tool env); ("final_answer", final_answer_tool);
   ("retrieval_tool", retrieval_tool env);
   ("evaluate_expression", evaluate_expression_tool env)].

(** [d[key] = v] on a dict kept in insertion order. *)
Fixpoint dict_set {A} (key : string) (v : A) (d : list (string * A)) : list (string * A) :=
  match d with
  | [] => [(key, v)]
  | (k', v') :: d' => if bool_decide (k' = key) then (k', v) :: d' else (k', v') :: dict_set key v d'
  end.

(** [if tool_name == "retrieval_tool" and selected_source:
       tool_args["source"] = selected_source] *)
Definition inject_source (tc : ToolCall) (selected_source : option string)
  : list (string * Value) :=
  match selected_source with
  | Some src =>
      if bool_decide (tc_name tc = "retrieval_tool") && id_truthy selected_source
      then dict_set "source" (VStr src) (tc_args tc) else tc_args tc
  | None => tc_args tc
  end.

(** [execute_tool(tool_call, selected_source)] (lines 161-170). *)
Definition execute_tool (env : Env) (tool_call : BaseMessage) (selected_source : option string)
  : Exc + BaseMessage :=
  match tool_call with
  | AIMessage _ (tc :: _) _ =>
      let tool_name := tc_name tc in
      let tool_args := inject_source tc selected_source in
      match assoc tool_name (name2tool env) with
      | None => inl (KeyError tool_name)
      | Some f =>
          match call_kwargs f tool_args with
          | inl e => inl e
          | inr tool_out => inr (ToolMessage tool_out (tc_id tc))
          end
      end
  | AIMessage _ [] _ => inl (IndexError "list index out of range")
  | _ => inl (TypeError "tool_call has no attribute tool_calls")
  end.

(* ------------------------------------------------------------------ *)
(** ** CustomAgentExecutor *)

(** [asyncio.gather] over the tasks: tasks complete in [order]; the first task
    to fail raises its exception, otherwise each result is stored in its
    task's slot and the slots are returned in argument order. *)
Fixpoint gather_slots {A} (order : list nat) (rs : list (Exc + A))
  (slots : list (option A)) : Exc + list (option A) :=
  match order with
  | [] => inr slots
  | i :: order' =>
      match rs !! i with
      | Some (inl e) => inl e
      | Some (inr a) => gather_slots order' rs (<[i := Some a]> slots)
      | None => gather_slots order' rs slots
      end
  end.

Definition gather {A} (order : list nat) (rs : list (Exc + A)) : Exc + list A :=
  match gather_slots order rs (replicate (length rs) None) with
  | inl e => inl e
  | inr slots =>
      map_exc (fun s => match s with
                        | Some a => inr a
                        | None => inl (IndexError "task never completed")
                        end) slots
  end.

(** The extra attribute [tool_call.tool_call_id] of a request. *)
Definition attr_tool_call_id (m : BaseMessage) : Exc + string :=
  match m with
  | AIMessage _ _ (Some i) => inr i
  | ToolMessage _ i => inr i
  | _ => inl (TypeError "object has no attribute 'tool_call_id'")
  end.

(** [{tool_call.tool_call_id: tool_obs for tool_call, tool_obs in zip(...)}] *)
Fixpoint build_id2tool_obs (pairs : list (BaseMessage * BaseMessage))
  (m : gmap string BaseMessage) : Exc + gmap string BaseMessage :=
  match pairs with
  | [] => inr m
  | (tc, ob) :: ps =>
      match attr_tool_call_id tc with
      | inl e => inl e
      | inr i => build_id2tool_obs ps (<[i := ob]> m)
      end
  end.

(** [for tool_call in tool_calls: agent_scratchpad.extend([tool_call,
    id2tool_obs[tool_call.tool_call_id]])] *)
Fixpoint extend_scratchpad (id2tool_obs : gmap string BaseMessage)
  (tool_calls : list BaseMessage) (sp : list BaseMessage) : Exc + list BaseMessage :=
  match tool_calls with
  | [] => inr sp
  | tc :: tcs =>
      match attr_tool_call_id tc with
      | inl e => inl e
      | inr i =>
          match id2tool_obs !! i with
          | None => inl (KeyError i)
          | Some ob => extend_scratchpad id2tool_obs tcs (sp ++ [tc; ob])
          end
      end
  end.

(** Lines 246-254: run the turn's requests concurrently and append the
    (request, result) pairs to the scratchpad. *)
Definition dispatch_turn (env : Env) (order : list nat) (selected_source : option string)
  (tool_calls : list BaseMessage) (sp : list BaseMessage) : Exc + list BaseMessage :=
  match gather order (map (fun tc => execute_tool env tc selected_source) tool_calls) with
  | inl e => inl e
  | inr tool_obs =>
      match build_id2tool_obs (zip tool_calls tool_obs) ∅ with
      | inl e => inl e
      | inr id2tool_obs => extend_scratchpad id2tool_obs tool_calls sp
      end
  end.

Record Executor := mkExecutor {
  max_iterations : Z;
  exec_k : Z
}.

(** The executor's state: the session map, the streaming handler of the
    running request, and the number of model turns started so far (an
    observation of the run, not a field of the program). *)
Record AgentState := mkAgentState {
  memory_map : gmap string History;
  streamer : Handler;
  turns : nat
}.

Definition set_streamer (h : Handler) (st : AgentState) : AgentState :=
  mkAgentState (memory_map st) h (turns st).

Definition set_memory (sid : string) (h : History) (st : AgentState) : AgentState :=
  mkAgentState (<[sid := h]> (memory_map st)) (streamer st) (turns st).

Definition count_turn (st : AgentState) : AgentState :=
  mkAgentState (memory_map st) (streamer st) (S (turns st)).

(** [get_memory] *)
Definition get_memory (ex : Executor) (session_id : string) : ST AgentState History :=
  fun st =>
    match memory_map st !! session_id with
    | Some h => (inr h, st)
    | None =>
        let h := mkHistory [] (exec_k ex) in
        (inr h, set_memory session_id h st)
    end.

(** The nested [stream(query)]: one model turn.  Each chunk first reaches
    the handler ([on_llm_new_token]), then the loop body; when the body
    raises the stream is abandoned. *)
Fixpoint consume (cs : list Chunk) (h : Handler) (outputs : list Acc)
  : Handler * (Exc + list Acc) :=
  match cs with
  | [] => (h, inr outputs)
  | c :: cs' =>
      let h' := on_llm_new_token (Some c) h in
      match accumulate outputs c with
      | inl e => (h', inl e)
      | inr o => consume cs' h' o
      end
  end.

Definition stream (llm : LLM) (query : string) (chat_history scratchpad : list BaseMessage)
  : ST AgentState (list BaseMessage) :=
  fun st =>
    let '(chunks, outcome) := llm_turn llm query chat_history scratchpad in
    let st0 := count_turn st in
    match consume chunks (streamer st0) [] with
    | (h, inl e) => (inl e, set_streamer (on_llm_error e h) st0)
    | (h, inr outputs) =>
        match outcome with
        | Some e => (inl e, set_streamer (on_llm_error e h) st0)
        | None => (map_exc (to_request llm) outputs, set_streamer (on_llm_end h) st0)
        end
    end.

Definition st_lift {S A} (r : Exc + A) : ST S A :=
  match r with inl e => st_raise e | inr a => st_ret a end.

(** The first request whose [tool_calls[0]["name"]] is "final_answer". *)
Fixpoint find_final_answer (tool_calls : list BaseMessage) : option ToolCall :=
  match tool_calls with
  | [] => None
  | AIMessage _ (t :: _) _ :: tcs =>
      if bool_decide (tc_name t = "final_answer") then Some t else find_final_answer tcs
  | _ :: tcs => find_final_answer tcs
  end.

(** [while count < self.max_iterations: ...]; [fuel] bounds the Rocq
    recursion and is chosen so that the guard alone ends the loop.  The
    result is the scratchpad and the final-answer call with its
    [args["answer"]]. *)
Fixpoint agent_loop (ex : Executor) (llm : LLM) (env : Env) (input : string)
  (selected_source : option string) (chat_history : list BaseMessage)
  (fuel : nat) (count : Z) (sp : list BaseMessage)
  : ST AgentState (list BaseMessage * option (ToolCall * Value)) :=
  match fuel with
  | O => st_ret (sp, None)
  | S fuel' =>
      if count <? max_iterations ex then
        let* tool_calls := stream llm input chat_history sp in
        let* sp' := st_lift (dispatch_turn env
                       (completion_order env count (length tool_calls))
                       selected_source tool_calls sp) in
        match find_final_answer tool_calls with
        | Some fc =>
            match assoc "answer" (tc_args fc) with
            | Some a => st_ret (sp', Some (fc, a))
            | None => st_raise (KeyError "answer")
            end
        | None =>
            agent_loop ex llm env input selected_source chat_history fuel' (count + 1) sp'
        end
      else st_ret (sp, None)
  end.

Definition fallback_payload : Value :=
  VDict [("answer", VStr "No answer found"); ("tools_used", VList [])].

(** A tool call as the dict langchain returns for it. *)
Definition tool_call_value (t : ToolCall) : Value :=
  VDict [("name", VStr (tc_name t)); ("args", VDict (tc_args t));
         ("id", VStr (tc_id t)); ("type", VStr "tool_call")].

(** [CustomAgentExecutor.invoke] (lines 210-273).  The content of the
    stored AIMessage must be text: a non-string answer is rejected (a list
    answer, which pydantic would accept, is outside the model). *)
Definition invoke (ex : Executor) (llm : LLM) (env : Env) (input session_id : string)
  (selected_source : option string) : ST AgentState (Value * list BaseMessage) :=
  let* memory := get_memory ex session_id in
  let chat_history := messages memory in
  let* res := agent_loop ex llm env input selected_source chat_history
                (Z.to_nat (max_iterations ex)) 0 [] in
  let '(sp, fa) := res in
  let final_answer := match fa with Some (_, a) => a | None => VNone end in
  let* content :=
    (if py_truthy final_answer then
       match final_answer with
       | VStr s => st_ret s
       | _ => st_raise (TypeError "AIMessage content must be a string")
       end
     else st_ret "No answer found"%string) in
  let* _ := (fun st =>
               let '(r, memory') :=
                 add_messages llm [HumanMessage input; AIMessage content [] None] memory in
               (r, set_memory session_id memory' st)) in
  st_ret (match fa with
          | Some (fc, a) => if py_truthy a then tool_call_value fc else fallback_payload
          | None => fallback_payload
          end, sp).

(* ------------------------------------------------------------------ *)
(** ** Concrete collaborators, to run the model on concrete inputs *)

(** A runtime in which every operation the interpreter model leaves open
    raises. *)
Definition closed_runtime : PyRuntime :=
  mkPyRuntime (fun _ n _ => PRaise ("builtin " +:+ n +:+ " not available")%string)
              (fun _ _ _ => PRaise "unsupported operand type(s)")
              (fun _ a => PRaise ("object has no attribute '" +:+ a +:+ "'")%string)
              (fun _ => PRaise "could not convert string to float").

(** An empty vector store, a parser that accepts nothing, and tasks that
    finish in reverse order of submission. *)
Definition env0 : Env :=
  mkEnv (fun _ => inr []) (fun _ _ => inl (ToolRaised "OverflowError"))
        (fun _ => inl "invalid syntax") closed_runtime
        (fun _ m => rev (seq 0 m)).

(** The same, but building the embeddings client fails: the API key is
    missing ("Will raise if OPENAI_API_KEY is missing"). *)
Definition env_no_key : Env :=
  mkEnv (fun _ => inl (ToolRaised "OpenAIError: The api_key client option must be set"))
        (float_pow env0) (parse_expr env0) (runtime env0) (completion_order env0).

(** A store returning one relevant and one irrelevant chunk. *)
Definition env_docs : Env :=
  mkEnv (fun _ => inr [(RDoc "Decorators wrap functions.", 9 # 10); (RText "Unrelated.", 1 # 2)])
        (float_pow env0) (parse_expr env0) (runtime env0) (completion_order env0).

Definition tool_chunk (id name args : string) : Chunk :=
  mkChunk EmptyString (Some (mkDelta (Some id) (Some name) (Some args))).

Definition arg_chunk (args : string) : Chunk :=
  mkChunk EmptyString (Some (mkDelta None None (Some args))).

(** The argument buffers the concrete models below produce. *)
Definition demo_parse (s : string) : option (list (string * Value)) :=
  if bool_decide (s = "{x: 2, y: 2}") then Some [("x", VFloat 2); ("y", VFloat 2)]
  else if bool_decide (s = "{answer: 4}") then Some [("answer", VStr "4")]
  else if bool_decide (s = "{query: decorators}") then Some [("query", VStr "decorators")]
  else None.

(** The model of the spec's "what is 2+2" scenario: it first calls [add]
    (its arguments streamed in two fragments), then [final_answer]. *)
Definition adding_llm : LLM :=
  mkLLM (fun _ => inr "summary")
        (fun _ _ sp =>
           match sp with
           | [] => ([tool_chunk "call_1" "add" "{x: 2, "; arg_chunk "y: 2}"], None)
           | _ => ([tool_chunk "call_2" "final_answer" "{answer: 4}"], None)
           end)
        demo_parse.

(** A model that asks for the documentation retrieval tool on every turn. *)
Definition retrieving_llm : LLM :=
  mkLLM (fun _ => inr "summary")
        (fun _ _ _ => ([tool_chunk "call_r" "retrieval_tool" "{query: decorators}"], None))
        demo_parse.

(** A model that asks for the retrieval tool on the first turn and gives
    its final answer on the next one. *)
Definition retrieve_then_answer_llm : LLM :=
  mkLLM (fun _ => inr "summary")
        (fun _ _ sp =>
           match sp with
           | [] => ([tool_chunk "call_r" "retrieval_tool" "{query: decorators}"], None)
           | _ => ([tool_chunk "call_f" "final_answer" "{answer: 4}"], None)
           end)
        demo_parse.

Definition executor3 : Executor := mkExecutor 3 6.

Definition fresh_state : AgentState := mkAgentState ∅ (mkHandler [] false) 0.

(** [(lambda f: f.__self__.__import__('os').system('id'))(abs)] *)
Definition lambda_import_payload : PyExpr :=
  ECall (ELambda ["f"]
           (ECall (EAttr (ECall (EAttr (EAttr (EName "f") "__self__") "__import__")
                                [EStr "os"]) "system")
                  [EStr "id"]))
        [EName "abs"].

(* ------------------------------------------------------------------ *)
(** ** ConversationSummaryBufferMessageHistory of src/memory.py *)

Definition memory_summary_instruction : string :=
  "Given the existing conversation summary and the new messages, generate a new summary of the conversation. Ensure to maintain as much relevant information as possible.".

(** [summary_prompt.format_messages(...)] with memory.py's instruction. *)
Definition memory_summary_messages (existing_summary_text old_messages_text : string)
  : list BaseMessage :=
  [SystemMessage memory_summary_instruction;
   HumanMessage ("Existing conversation summary:" +:+ newline +:+
                 existing_summary_text +:+ newline +:+ newline +:+
                 "New messages:" +:+ newline +:+ old_messages_text)%string].

(** [add_messages] (src/memory.py, lines 13-48): the summary is asked for
    only [if old_messages:], i.e. when the evicted list is not empty. *)
Definition memory_add_messages (llm : LLM) (new : list BaseMessage) : ST History unit :=
  fun h =>
    let '(existing_summary, rest) :=
      match messages h with
      | SystemMessage c :: r => (Some c, r)
      | l => (None, l)
      end in
    let ms := rest ++ new in
    let kk := k h in
    let '(old_messages, kept) :=
      if Z.of_nat (length ms) >? kk then
        (Some (py_slice_to (Z.of_nat (length ms) - kk) ms), py_slice_from (- kk) ms)
      else (None, ms) in
    match old_messages with
    | Some ((_ :: _) as old) =>
        let existing_summary_text :=
          match existing_summary with Some c => c | None => EmptyString end in
        let old_messages_text := String.concat newline (map content_text old) in
        match llm_invoke llm (memory_summary_messages existing_summary_text old_messages_text) with
        | inl e => (inl e, mkHistory kept kk)
        | inr new_summary => (inr tt, mkHistory (SystemMessage new_summary :: kept) kk)
        end
    | _ => (inr tt, mkHistory kept kk)
    end.

(* ------------------------------------------------------------------ *)
(** ** Consumer side of the relay queue *)

(** [QueueCallbackHandler.__aiter__] run over the items put on the queue:
    it yields the truthy items (a [None] chunk is skipped) up to the first
    "<<DONE>>" and then returns.  [None] means the queue ran dry without a
    DONE: the loop keeps sleeping and polling, and never returns. *)
Fixpoint aiter (q : list QueueItem) : option (list QueueItem) :=
  match q with
  | [] => None
  | QDone :: _ => Some []
  | QChunk None :: q' => aiter q'
  | x :: q' => option_map (cons x) (aiter q')
  end.

(** A handler that has seen no final-answer chunk and put no DONE. *)
Definition quiet (h : Handler) : Prop :=
  final_answer_seen h = false /\ QDone ∉ queue h.

(* ------------------------------------------------------------------ *)
(** ** Shape of the scratchpad *)

(** The scratchpad as a sequence of (request, result) pairs: an AIMessage
    whose [tool_call_id] is its first tool call's id, followed by a
    ToolMessage carrying that same id. *)
Fixpoint scratchpad_ok (sp : list BaseMessage) : bool :=
  match sp with
  | [] => true
  | AIMessage _ (t :: _) (Some i) :: ToolMessage _ j :: rest =>
      bool_decide (i = tc_id t) && bool_decide (j = tc_id t) && scratchpad_ok rest
  | _ => false
  end.

(* ------------------------------------------------------------------ *)
(** ** Runtimes that stay within arithmetic *)

(** The evaluation of call arguments inside [py_eval] ([ev_args]). *)
Fixpoint py_eval_args (depth : nat) (rt : PyRuntime) (sc : Scope) (xs : list PyExpr)
  (tr : list string) : (string + list PyVal) * list string :=
  match xs with
  | [] => (inr [], tr)
  | x :: xs' =>
      match py_eval depth rt sc x tr with
      | (POk v, tr') =>
          match py_eval_args depth rt sc xs' tr' with
          | (inr vs, tr'') => (inr (v :: vs), tr'')
          | (inl m, tr'') => (inl m, tr'')
          end
      | (PRaise m, tr') => (inl m, tr')
      end
  end.

(** The call of a value on evaluated arguments inside [py_eval]. *)
Definition py_call_value (depth : nat) (rt : PyRuntime) (fv : PyVal) (vs : list PyVal)
  (tr2 : list string) : PyOutcome * list string :=
  match fv with
  | PClosure ps body env =>
      if negb (Nat.eqb (length ps) (length vs)) then
        (PRaise "<lambda>() got a wrong number of positional arguments", tr2)
      else match depth with
           | O => (PRaise "maximum recursion depth exceeded", tr2)
           | S d => py_eval d rt (Fun (combine ps vs ++ env)) body tr2
           end
  | PBuiltin "builtins" "__import__" =>
      match vs with
      | [PStr m] =>
          if bool_decide (m ∈ importable) then (POk (PModule m), tr2)
          else (PRaise ("No module named '" +:+ m +:+ "'")%string, tr2)
      | _ => (rt_call rt "builtins" "__import__" vs, tr2)
      end
  | PBuiltin "posix" "system" =>
      match vs with
      | [PStr cmd] => (POk (PNum 0), tr2 ++ [cmd])
      | _ => (rt_call rt "posix" "system" vs, tr2)
      end
  | PBuiltin "builtins" "abs" =>
      match vs with
      | [PNum q] => (POk (PNum (Qabs q)), tr2)
      | _ => (rt_call rt "builtins" "abs" vs, tr2)
      end
  | PBuiltin m n => (rt_call rt m n vs, tr2)
  | _ => (PRaise "object is not callable", tr2)
  end.

(* ------------------------------------------------------------------ *)
(** ** Files and the Chroma collection (src/rag_manager.py,
    src/doc_manager.py, src/main.py) *)

Inductive OsExc :=
| ValueError (msg : string)
| FileNotFoundError (msg : string)
| FileExistsError (msg : string)
| IsADirectoryError (msg : string)
| OSError (msg : string).

(** The result of a FastAPI endpoint: its body, or the HTTPException it
    raises. *)
Inductive Http (A : Type) :=
| HttpOk (body : A)
| HTTPException (status_code : Z) (detail : string).
Arguments HttpOk {A}.
Arguments HTTPException {A}.

(** The file system, by normalised path. *)
Inductive FsEntry := FsFile (content : string) | FsDir.

Definition FS := gmap string FsEntry.

Definition DOCS_DIR : string := "docs".

Definition char_in (c : ascii) (s : string) : bool :=
  existsb (fun c' => Ascii.eqb c' c) (String.list_ascii_of_string s).

(** [s.endswith(suffix)] *)
Definition ends_with (suffix s : string) : bool :=
  let n := String.length s in
  let m := String.length suffix in
  Nat.leb m n && String.eqb (String.substring (n - m) m s) suffix.

(** [os.path.join(a, b)] (POSIX). *)
Definition path_join (a b : string) : string :=
  if String.prefix "/" b then b
  else if String.eqb a EmptyString || ends_with "/" a then (a +:+ b)%string
  else (a +:+ "/" +:+ b)%string.

(** [os.path.basename(p)]: what follows the last "/". *)
Fixpoint basename_rev (cs : list ascii) : list ascii :=
  match cs with
  | [] => []
  | c :: cs' => if Ascii.eqb c "/"%char then [] else c :: basename_rev cs'
  end.

Definition basename (p : string) : string :=
  String.string_of_list_ascii (rev (basename_rev (rev (String.list_ascii_of_string p)))).

(** [os.path.isfile(p)] *)
Definition isfile (fs : FS) (p : string) : bool :=
  match fs !! p with Some (FsFile _) => true | _ => false end.








(** A chunk of the Chroma collection: its [metadata["source"]] (if any)
    and its page content. *)
Record ChromaDoc := mkChromaDoc {
  cd_source : option string;
  cd_text : string
}.

(** [vectorstore.delete(where={"source": doc_name})] *)
Definition chroma_delete (doc_name : string) (store : list ChromaDoc) : list ChromaDoc :=
  List.filter (fun d => negb (bool_decide (cd_source d = Some doc_name))) store.

(** The loop of [delete_docs]: [n_before - n_after] chunks per name,
    recorded by [deleted_counts[doc_name] = deleted]. *)
Fixpoint delete_docs_from (doc_names : list string) (store : list ChromaDoc)
  (deleted_counts : list (string * nat)) : list (string * nat) * list ChromaDoc :=
  match doc_names with
  | [] => (deleted_counts, store)
  | doc_name :: rest =>
      let n_before := length store in
      let store' := chroma_delete doc_name store in
      let n_after := length store' in
      delete_docs_from rest store' (dict_set doc_name (n_before - n_after)%nat deleted_counts)
  end.

(** [delete_docs(doc_names)] (src/rag_manager.py, lines 110-127). *)
Definition delete_docs (doc_names : list string) (store : list ChromaDoc)
  : list (string * nat) * list ChromaDoc :=
  delete_docs_from doc_names store [].

(** [repr] of a list of strings free of quotes and backslashes. *)
Definition str_list_repr (l : list string) : string :=
  ("[" +:+ String.concat ", " (map (fun s => "'" +:+ s +:+ "'") l) +:+ "]")%string.

Record DeleteBody := mkDeleteBody {
  delete_message : string;
  deleted_counts : list (string * nat)
}.

(** The [/rag/delete] endpoint [api_delete] (src/main.py, lines 118-131). *)
Definition api_delete (doc_names : list string) (store : list ChromaDoc)
  : Http DeleteBody * list ChromaDoc :=
  let '(counts, store') := delete_docs doc_names store in
  let not_found := map fst (List.filter (fun dc => Nat.eqb dc.2 0) counts) in
  match not_found with
  | _ :: _ =>
      (HTTPException 404 ("No chunks found for: " +:+ str_list_repr not_found)%string, store')
  | [] => (HttpOk (mkDeleteBody ("Deleted: " +:+ str_list_repr doc_names)%string counts), store')
  end.

(** [_split_and_label(doc_path)]: the file's text split by the text
    splitter ([split]), each chunk labelled with the file's basename. *)
Definition split_and_label (split : string -> list string) (fs : FS) (doc_path : string)
  : OsExc + list ChromaDoc :=
  match fs !! doc_path with
  | Some (FsFile c) => inr (map (fun t => mkChromaDoc (Some (basename doc_path)) t) (split c))
  | Some FsDir => inl (IsADirectoryError ("[Errno 21] Is a directory: '" +:+ doc_path +:+ "'")%string)
  | None => inl (FileNotFoundError ("[Errno 2] No such file or directory: '" +:+ doc_path +:+ "'")%string)
  end.

(** The loop of [ingest]: missing files and loading errors are skipped. *)
Fixpoint ingest_chunks (split : string -> list string) (fs : FS) (doc_names : list string)
  : list ChromaDoc :=
  match doc_names with
  | [] => []
  | doc_name :: rest =>
      let path := path_join DOCS_DIR doc_name in
      if negb (isfile fs path) then ingest_chunks split fs rest
      else match split_and_label split fs path with
           | inl _ => ingest_chunks split fs rest
           | inr ds => ds ++ ingest_chunks split fs rest
           end
  end.

(** [ingest(doc_names)] (src/rag_manager.py, lines 83-108): the chunks are
    appended to the collection ([add_documents]). *)
Definition ingest (split : string -> list string) (fs : FS) (doc_names : list string)
  (store : list ChromaDoc) : (OsExc + nat) * list ChromaDoc :=
  match ingest_chunks split fs doc_names with
  | [] => (inl (FileNotFoundError "No valid files to ingest."), store)
  | chunks => (inr (length chunks), store ++ chunks)
  end.

Record IngestBody := mkIngestBody { ingest_message : string; chunks_ingested : nat }.

(** The [/rag/ingest] endpoint [api_ingest] (src/main.py, lines 107-116):
    a FileNotFoundError of [ingest] becomes a 404 with [str(e)]. *)
Definition api_ingest (split : string -> list string) (fs : FS) (doc_names : list string)
  (store : list ChromaDoc) : OsExc + (Http IngestBody * list ChromaDoc) :=
  match ingest split fs doc_names store with
  | (inl (FileNotFoundError m), store') => inr (HTTPException 404 m, store')
  | (inl e, _) => inl e
  | (inr num_chunks, store') =>
      inr (HttpOk (mkIngestBody ("Ingested: " +:+ str_list_repr doc_names)%string num_chunks), store')
  end.

(** The number of chunks of the collection whose [metadata["source"]] is
    [doc_name]. *)
Definition chunk_count (doc_name : string) (store : list ChromaDoc) : nat :=
  length (List.filter (fun d => bool_decide (cd_source d = Some doc_name)) store).

(** The number of times [n] occurs in [names]. *)
Definition occurrences (n : string) (names : list string) : nat :=
  length (List.filter (fun m => bool_decide (m = n)) names).

(** [Counter(sources)]: counts in order of first occurrence. *)
Fixpoint counter_add (s : string) (c : list (string * nat)) : list (string * nat) :=
  match c with
  | [] => [(s, 1%nat)]
  | (s', n) :: c' => if bool_decide (s' = s) then (s', S n) :: c' else (s', n) :: counter_add s c'
  end.

Definition counter (l : list string) : list (string * nat) :=
  foldl (fun c s => counter_add s c) [] l.

(** [md.get("source", "UNKNOWN")] *)
Definition metadata_source (d : ChromaDoc) : string := default "UNKNOWN" (cd_source d).

(** [summarize_chroma()] (src/rag_manager.py, lines 27-45). *)
Definition summarize_chroma (store : list ChromaDoc) : list (string * nat) :=
  counter (map metadata_source store).

(** The number of chunks whose [md.get("source", "UNKNOWN")] is [s]. *)
Definition source_count (s : string) (store : list ChromaDoc) : nat :=
  length (List.filter (fun d => bool_decide (metadata_source d = s)) store).

Record ListEntry := mkListEntry {
  le_filename : string;
  le_chunks : nat;
  le_ingested : bool;
  le_note : option string
}.

(** The [/rag/list] endpoint [rag_list] (src/main.py, lines 148-176);
    [entries] is [os.listdir(DOCS_DIR)] with [os.path.isfile] of each. *)
Definition rag_list (entries : list (string * bool)) (store : list ChromaDoc) : list ListEntry :=
  let files := map fst (List.filter (fun e => e.2 && ends_with ".md" e.1) entries) in
  let chunk_map := summarize_chroma store in
  map (fun fname =>
         let chunks := default 0%nat (assoc fname chunk_map) in
         mkListEntry fname chunks (Nat.ltb 0 chunks) None) files ++
  map (fun sc => mkListEntry sc.1 sc.2 true (Some "Ingested, but file missing in docs/"))
      (List.filter (fun sc => negb (bool_decide (sc.1 ∈ files))) chunk_map).

(** The scratchpad summary that [token_generator] (src/main.py, lines
    63-79) sends last: for each [(call, result)] at positions [i, i+1]
    whose call has tool calls, the first tool call's name and
    [json.loads(result.content)], or the raw content when it raises.
    [json_loads] is the JSON parser ([None] when it raises). *)
Section ScratchpadSummary.
Variable J : Type.
Variable json_loads : string -> option J.

Definition load_content (s : string) : J + string :=
  match json_loads s with Some j => inl j | None => inr s end.

Fixpoint scratchpad_summary (sp : list BaseMessage) : list (string * (J + string)) :=
  match sp with
  | call :: result :: rest =>
      match call with
      | AIMessage _ (t :: _) _ => (tc_name t, load_content (content_text result)) :: scratchpad_summary rest
      | _ => scratchpad_summary rest
      end
  | _ => []
  end.
End ScratchpadSummary.

(** ** Reading of one turn's dispatch *)

(** The id a request is filed under in [id2tool_obs]. *)
Definition request_id (m : BaseMessage) : string :=
  match attr_tool_call_id m with inr i => i | inl _ => EmptyString end.

(** A request as [stream] builds it: an AIMessage whose [tool_call_id] is
    the id of its first tool call. *)
Definition built_request (m : BaseMessage) : Prop :=
  match m with
  | AIMessage _ (t :: _) (Some i) => i = tc_id t
  | _ => False
  end.

(** The scratchpad after the turn, as the spec reads it: each request
    followed by its own result, in request order. *)
Definition paired (tool_calls results : list BaseMessage) : list BaseMessage :=
  concat (zip_with (fun tc r => [tc; r]) tool_calls results).

(** A request for a two-argument arithmetic tool, as [stream] builds it. *)
Definition xy_request (id name : string) (x y : Q) : BaseMessage :=
  AIMessage EmptyString [mkToolCall name [("x", VFloat x); ("y", VFloat y)] id] (Some id).

(* ================================================================== *)
(** * Properties *)

(** ** Helper lemmas *)

Lemma str_app_nil_r (s : string) : (s +:+ EmptyString)%string = s.
Proof. induction s as [|c s IH]; [reflexivity | exact (f_equal (String.String c) IH)]. Qed.

Lemma str_app_assoc (a b c : string) :
  (a +:+ b +:+ c)%string = ((a +:+ b) +:+ c)%string.
Proof. induction a as [|x a IH]; [reflexivity | exact (f_equal (String.String x) IH)]. Qed.

(** ** Tests of the model on the spec's scenarios *)

(** "what is 2+2": the add call, then the final answer; a scratchpad of
    four messages, two model turns. *)
Example invoke_two_plus_two :
  match invoke executor3 adding_llm env0 "what is 2+2" "s" None fresh_state with
  | (inr (p, sp), st) =>
      p = tool_call_value (mkToolCall "final_answer" [("answer", VStr "4")] "call_2")
      /\ length sp = 4%nat /\ turns st = 2%nat
  | _ => False
  end.
Proof. vm_compute. auto. Qed.

(** Memory with k = 2 holding two messages, two more added: one summary
    and the two newest messages. *)
Example add_messages_k2 :
  add_messages adding_llm [HumanMessage "c"; AIMessage "d" [] None]
    (mkHistory [HumanMessage "a"; AIMessage "b" [] None] 2)
  = (inr tt, mkHistory [SystemMessage "summary"; HumanMessage "c"; AIMessage "d" [] None] 2).
Proof. reflexivity. Qed.

(** ** C10: subtract returns y - x *)

(** C10: for all numbers x and y, [subtract] returns y - x, also when the
    agent calls the registered tool with arguments x and y. *)
Theorem subtract_returns_y_minus_x (x y : Q) :
  subtract x y = (y - x)%Q /\
  forall (env : Env) (i : string),
    execute_tool env
      (AIMessage EmptyString [mkToolCall "subtract" [("x", VFloat x); ("y", VFloat y)] i] (Some i))
      None
    = inr (ToolMessage (VFloat (y - x)) i).
Proof. split; [reflexivity | intros env i; reflexivity]. Qed.

(** ** C9: retrieval threshold *)

Lemma top_texts_filter (results : list (RetrievedChunk * Q)) :
  top_texts results =
  map (fun p => chunk_text p.1) (List.filter (fun p => Qle_bool THRESHOLD p.2) results).
Proof.
  induction results as [|[c score] rs IH]; simpl; [reflexivity|].
  destruct (Qle_bool THRESHOLD score); simpl; now rewrite IH.
Qed.

(** C9: whatever the vector store retrieves for a query, the retrieval
    tool returns the texts of exactly the chunks scoring at least 0.7,
    joined by the separator, or the sentinel "No relevant documents
    found." when no chunk qualifies (in particular when nothing is
    retrieved). *)
Theorem retrieval_tool_threshold (env : Env) (query : string)
  (results : list (RetrievedChunk * Q))
  (Hsearch : similarity_search env query = inr results) :
  call_kwargs (retrieval_tool env) [("query", VStr query)] =
  inr (VStr (match List.filter (fun p => Qle_bool THRESHOLD p.2) results with
             | [] => no_docs_sentinel
             | kept => String.concat next_chunk_sep (map (fun p => chunk_text p.1) kept)
             end)).
Proof.
  unfold call_kwargs; simpl. rewrite Hsearch. f_equal. f_equal.
  unfold retrieval_answer. rewrite top_texts_filter.
  destruct results as [|r rs]; [reflexivity|].
  destruct (List.filter _ (r :: rs)); reflexivity.
Qed.

Lemma retrieval_tool_threshold_witness :
  similarity_search env_docs "decorators" =
    inr [(RDoc "Decorators wrap functions.", 9 # 10); (RText "Unrelated.", 1 # 2)] /\
  call_kwargs (retrieval_tool env_docs) [("query", VStr "decorators")] =
    inr (VStr "Decorators wrap functions.").
Proof.
  split; [reflexivity|].
  rewrite (retrieval_tool_threshold env_docs "decorators" _ eq_refl). reflexivity.
Defined.

(** ** C8: evaluate_expression and identifiers in nested code *)

(** C8 (code bug): the name check only reads the top-level [co_names];
    the identifiers of a lambda body live in a nested code object, so
    [(lambda f: f.__self__.__import__('os').system('id'))(abs)] passes
    the check although it references [__self__], [__import__] and
    [system], runs the shell command [id] and returns 0.0. *)
Theorem evaluate_expression_runs_lambda_body (rt : PyRuntime) :
  co_names (py_compile lambda_import_payload) = ["abs"] /\
  List.find (fun n => negb (allowed n)) (all_co_names (py_compile lambda_import_payload))
    = Some "__self__" /\
  evaluate_expression rt lambda_import_payload = (RFloat 0, ["id"]).
Proof. split; [reflexivity | split; [reflexivity | vm_compute; reflexivity]]. Qed.

(** ** C2 and C3: the summarising memory *)

Lemma length_filter_le {A} (f : A -> bool) (l : list A) :
  (length (List.filter f l) <= length l)%nat.
Proof. induction l as [|x l IH]; simpl; [lia|]. destruct (f x); simpl; lia. Qed.

Lemma py_slice_from_neg_length {A} (kk : Z) (l : list A) :
  0 < kk -> kk < Z.of_nat (length l) ->
  length (py_slice_from (- kk) l) = Z.to_nat kk.
Proof.
  intros Hk Hlt. unfold py_slice_from, py_slice_bound.
  destruct (Z.ltb_spec (- kk) 0); [|lia].
  rewrite length_drop. lia.
Qed.

(** X2: for k >= 1 every call of [add_messages] leaves at most k
    non-summary messages in the history: the bound fails only through the
    [-k] slice at k = 0 (see C2). *)
Lemma add_messages_bounded_pos (llm : LLM) (new : list BaseMessage) (h : History) :
  1 <= k h -> (non_system_count (add_messages llm new h).2 <= Z.to_nat (k h))%nat.
Proof.
  intros Hk. unfold add_messages.
  set (p := match messages h with
            | SystemMessage c :: r => (Some c, r)
            | _ => (None, messages h)
            end).
  replace (match messages h with
           | SystemMessage c :: r => (Some c, r)
           | l => (None, l)
           end) with p by (unfold p; destruct (messages h) as [|[]]; reflexivity).
  destruct p as [es rest].
  destruct (Z.gtb_spec (Z.of_nat (length (rest ++ new))) (k h)) as [Hgt|Hle].
  - assert (Hlen : length (py_slice_from (- k h) (rest ++ new)) = Z.to_nat (k h))
      by (apply py_slice_from_neg_length; lia).
    destruct (llm_invoke llm _); unfold non_system_count; simpl;
      pose proof (length_filter_le (fun m => negb (is_system m))
                    (py_slice_from (- k h) (rest ++ new))); lia.
  - unfold non_system_count; simpl.
    pose proof (length_filter_le (fun m => negb (is_system m)) (rest ++ new)); lia.
Qed.

Lemma add_messages_bounded_pos_witness :
  1 <= k (mkHistory [AIMessage "a" [] None] 1) /\
  (non_system_count (add_messages adding_llm [HumanMessage "hi"] (mkHistory [AIMessage "a" [] None] 1)).2
     <= Z.to_nat (k (mkHistory [AIMessage "a" [] None] 1)))%nat.
Proof.
  assert (H : 1 <= k (mkHistory [AIMessage "a" [] None] 1)) by (simpl; lia).
  split; [exact H|].
  exact (add_messages_bounded_pos adding_llm [HumanMessage "hi"] _ H).
Defined.

(** C2 (code bug): with k = 0 the slice [self.messages[-0:]] keeps the
    whole list, so the added message is summarised and still stored:
    one non-summary message remains, more than k = 0. *)
Theorem add_messages_k_zero_keeps_message :
  add_messages adding_llm [HumanMessage "hi"] (mkHistory [] 0)
    = (inr tt, mkHistory [SystemMessage "summary"; HumanMessage "hi"] 0) /\
  non_system_count (mkHistory [SystemMessage "summary"; HumanMessage "hi"] 0) = 1%nat.
Proof. split; reflexivity. Qed.

(** Whenever nothing is evicted, the popped summary is not put back. *)
Lemma add_messages_no_eviction_drops_summary (llm : LLM) (new rest : list BaseMessage)
  (s : string) (kk : Z) :
  Z.of_nat (length (rest ++ new)) <= kk ->
  add_messages llm new (mkHistory (SystemMessage s :: rest) kk)
  = (inr tt, mkHistory (rest ++ new) kk).
Proof.
  intros Hle. unfold add_messages; simpl.
  destruct (Z.gtb_spec (Z.of_nat (length (rest ++ new))) kk); [lia | reflexivity].
Qed.

(** C3 (code bug): with k = 1, adding a message, then a second one (which
    evicts the first into a summary), then nothing: the third call evicts
    nothing, and the summary produced by the second call is gone. *)
Theorem add_messages_empty_add_loses_summary :
  let h1 := (add_messages adding_llm [HumanMessage "a"] (mkHistory [] 1)).2 in
  let h2 := (add_messages adding_llm [AIMessage "b" [] None] h1).2 in
  let h3 := (add_messages adding_llm [] h2).2 in
  messages h2 = [SystemMessage "summary"; AIMessage "b" [] None] /\
  messages h3 = [AIMessage "b" [] None].
Proof. split; reflexivity. Qed.

(** ** C4: terminal markers *)

Lemma handler_tokens (chunks : list Chunk) (h : Handler) :
  queue (foldl (fun h c => on_llm_new_token (Some c) h) h chunks)
    = queue h ++ map (fun c => QChunk (Some c)) chunks /\
  final_answer_seen (foldl (fun h c => on_llm_new_token (Some c) h) h chunks)
    = final_answer_seen h || existsb names_final_answer chunks.
Proof.
  revert h. induction chunks as [|c cs IH]; intros h; simpl.
  - rewrite app_nil_r, orb_false_r. auto.
  - destruct (IH (on_llm_new_token (Some c) h)) as [Hq Hs]. split.
    + rewrite Hq. simpl. now rewrite <- app_assoc.
    + rewrite Hs. simpl. destruct (names_final_answer c), (final_answer_seen h); reflexivity.
Qed.

(** C4 (as the code behaves): when a turn's stream closes normally the
    handler enqueues, after the turn's chunks, exactly one marker: DONE
    if the handler's flag is set, i.e. some chunk of this turn or of an
    earlier turn of the same handler named final_answer in its first
    tool call, STEP_END otherwise; when the turn fails, no marker is
    enqueued. *)
Theorem handler_turn_queue (chunks : list Chunk) (h : Handler) :
  queue (handler_turn chunks None h)
    = queue h ++ map (fun c => QChunk (Some c)) chunks ++
        [if final_answer_seen h || existsb names_final_answer chunks then QDone else QStepEnd] /\
  forall e : Exc,
    queue (handler_turn chunks (Some e) h) = queue h ++ map (fun c => QChunk (Some c)) chunks.
Proof.
  destruct (handler_tokens chunks h) as [Hq Hs]. unfold handler_turn. split.
  - unfold on_llm_end. rewrite Hs.
    destruct (final_answer_seen h || existsb names_final_answer chunks);
      simpl; rewrite Hq, <- app_assoc; reflexivity.
  - intros e. simpl. exact Hq.
Qed.

(** C4: a turn whose stream fails enqueues no terminal marker at all. *)
Lemma failed_turn_enqueues_no_marker :
  markers (queue (handler_turn [] (Some (LLMError "connection reset")) (mkHandler [] false)))
  = [].
Proof. reflexivity. Qed.

(** ** C5: tool failures *)

(** C5 (as the code behaves): [execute_tool] catches nothing.  An
    unregistered name raises KeyError; when the registered tool raises
    (in binding its arguments or in its body) that exception propagates
    unchanged; otherwise the result is a ToolMessage holding the tool's
    output and the request's id. *)
Theorem execute_tool_outcomes (env : Env) (c : string) (t : ToolCall) (ts : list ToolCall)
  (i src : option string) :
  (assoc (tc_name t) (name2tool env) = None ->
     execute_tool env (AIMessage c (t :: ts) i) src = inl (KeyError (tc_name t))) /\
  (forall f e, assoc (tc_name t) (name2tool env) = Some f ->
     call_kwargs f (inject_source t src) = inl e ->
     execute_tool env (AIMessage c (t :: ts) i) src = inl e) /\
  (forall f out, assoc (tc_name t) (name2tool env) = Some f ->
     call_kwargs f (inject_source t src) = inr out ->
     execute_tool env (AIMessage c (t :: ts) i) src = inr (ToolMessage out (tc_id t))).
Proof.
  unfold execute_tool. repeat split.
  - intros H. now rewrite H.
  - intros f e Hf Hc. now rewrite Hf, Hc.
  - intros f out Hf Hc. now rewrite Hf, Hc.
Qed.

Lemma execute_tool_outcomes_witness :
  assoc "retrieval_tool" (name2tool env_no_key) = Some (retrieval_tool env_no_key) /\
  call_kwargs (retrieval_tool env_no_key) [("query", VStr "decorators")]
    = inl (ToolRaised "OpenAIError: The api_key client option must be set") /\
  execute_tool env_no_key
    (AIMessage EmptyString [mkToolCall "retrieval_tool" [("query", VStr "decorators")] "call_r"]
       (Some "call_r")) None
    = inl (ToolRaised "OpenAIError: The api_key client option must be set").
Proof.
  split; [reflexivity|]. split; [reflexivity|].
  destruct (execute_tool_outcomes env_no_key EmptyString
              (mkToolCall "retrieval_tool" [("query", VStr "decorators")] "call_r") []
              (Some "call_r") None) as [_ [Hraise _]].
  apply (Hraise (retrieval_tool env_no_key)); reflexivity.
Defined.

(** C5: the retrieval tool raises (its embeddings client has no API key)
    and [execute_tool] propagates the exception instead of returning a
    "ToolExecutionError: ..." text. *)
Lemma execute_tool_propagates_tool_error :
  execute_tool env_no_key
    (AIMessage EmptyString [mkToolCall "retrieval_tool" [("query", VStr "decorators")] "call_r"]
       (Some "call_r")) None
  = inl (ToolRaised "OpenAIError: The api_key client option must be set").
Proof. reflexivity. Qed.

(** ** C7: reconstruction of the streamed tool calls *)

Lemma merge_field_no_id (x : string) (i : option string) :
  id_truthy i = false -> merge_field (Some x) i = Some x.
Proof.
  destruct i as [s|]; simpl; [|reflexivity].
  intros H. apply negb_false_iff, bool_decide_eq_true in H. subst s.
  now rewrite str_app_nil_r.
Qed.

Lemma reconstruct_from_snoc (cs : list Chunk) :
  forall (outputs : list Acc) (a : Acc), is_Some (acc_id a) ->
  exists outs', reconstruct_from (outputs ++ [a]) cs = inr (outputs ++ outs') /\
    map request_view outs'
      = (acc_id a, (acc_args a +:+ trailing_fragments cs)%string) :: spec_requests cs.
Proof.
  induction cs as [|c cs IH]; intros outputs a Ha.
  - exists [a]. split; [reflexivity|]. simpl. unfold request_view. now rewrite str_app_nil_r.
  - simpl. unfold accumulate. destruct (ch_tool_call c) as [d|] eqn:Hc.
    + destruct (id_truthy (d_id d)) eqn:Hid.
      * destruct (IH (outputs ++ [a]) (acc_start c d)) as [outs'' [Hr Hv]].
        { unfold acc_start; simpl. destruct (d_id d); [eexists; reflexivity | discriminate]. }
        exists (a :: outs''). split.
        -- rewrite Hr, <- app_assoc. reflexivity.
        -- simpl. rewrite Hv. unfold request_view. now rewrite str_app_nil_r.
      * rewrite last_snoc, removelast_last.
        destruct (IH outputs (acc_add a c)) as [outs' [Hr Hv]].
        { unfold acc_add. rewrite Hc. simpl. destruct Ha as [x Hx]. rewrite Hx.
          rewrite merge_field_no_id by exact Hid. eexists; reflexivity. }
        exists outs'. split; [exact Hr|]. rewrite Hv.
        unfold acc_add. rewrite Hc. simpl. destruct Ha as [x Hx]. rewrite Hx.
        rewrite merge_field_no_id by exact Hid. now rewrite str_app_assoc.
    + apply IH. exact Ha.
Qed.

Lemma length_spec_requests (cs : list Chunk) :
  length (spec_requests cs) = length (List.filter id_bearing cs).
Proof.
  induction cs as [|c cs IH]; simpl; [reflexivity|].
  unfold id_bearing. destruct (ch_tool_call c) as [d|]; [|exact IH].
  destruct (id_truthy (d_id d)); simpl; auto.
Qed.

(** C7: when the turn's first tool-call delta bears an id (so every
    id-less delta has a started request before it), [stream]'s
    reconstruction yields one request per id-bearing delta, each with that
    delta's id and, as argument buffer, its fragment followed by the
    fragments of the id-less deltas up to the next id-bearing one: exactly
    the spec's reading.  Hence as many requests as id-bearing deltas. *)
Theorem reconstruct_requests (cs : list Chunk) (Hfirst : first_delta_has_id cs = true) :
  exists outs, reconstruct cs = inr outs /\
    map request_view outs = spec_requests cs /\
    length outs = length (List.filter id_bearing cs).
Proof.
  unfold reconstruct.
  induction cs as [|c cs IH].
  - exists []. auto.
  - simpl in Hfirst |- *. unfold accumulate. destruct (ch_tool_call c) as [d|] eqn:Hc.
    + rewrite Hfirst.
      destruct (reconstruct_from_snoc cs [] (acc_start c d)) as [outs' [Hr Hv]].
      { unfold acc_start; simpl. destruct (d_id d); [eexists; reflexivity | discriminate]. }
      exists outs'. simpl in Hr. split; [exact Hr|].
      assert (Hv' : map request_view outs' = spec_requests (c :: cs))
        by (simpl; rewrite Hc, Hfirst; exact Hv).
      split; [exact Hv|].
      change (length outs' = length (List.filter id_bearing (c :: cs))).
      rewrite <- length_spec_requests, <- Hv'. now rewrite length_map.
    + destruct (IH Hfirst) as [outs [Hr [Hv Hl]]].
      exists outs. split; [exact Hr|]. split.
      * exact Hv.
      * simpl. unfold id_bearing at 1. now rewrite Hc.
Qed.

Lemma reconstruct_requests_witness :
  first_delta_has_id [tool_chunk "call_1" "add" "{x: 2, "; arg_chunk "y: 2}"] = true /\
  exists outs, reconstruct [tool_chunk "call_1" "add" "{x: 2, "; arg_chunk "y: 2}"] = inr outs /\
    map request_view outs = spec_requests [tool_chunk "call_1" "add" "{x: 2, "; arg_chunk "y: 2}"] /\
    length outs = length (List.filter id_bearing
                            [tool_chunk "call_1" "add" "{x: 2, "; arg_chunk "y: 2}"]).
Proof. split; [reflexivity | apply reconstruct_requests; reflexivity]. Defined.

(** ** C6: recombining a turn's results by id *)

Lemma lookup_map_list {A B} (f : A -> B) (xs : list A) (i : nat) :
  map f xs !! i = option_map f (xs !! i).
Proof. revert i; induction xs as [|x xs IH]; intros [|i]; simpl; auto. Qed.

Lemma map_inr_of_Forall2 {A B} (f : A -> Exc + B) (l : list A) (k : list B) :
  Forall2 (fun a b => f a = inr b) l k -> map f l = map inr k.
Proof. induction 1 as [|a b l k Hab _ IH]; simpl; [reflexivity | now rewrite Hab, IH]. Qed.

(** When every task succeeds, [gather_slots] fills the slot of each task
    it meets. *)
Lemma gather_slots_inr {A} (xs : list A) (order : list nat) (slots : list (option A)) :
  Forall (fun i => i < length xs)%nat order ->
  gather_slots order (map inr xs) slots
  = inr (foldl (fun s i => <[i := xs !! i]> s) slots order).
Proof.
  revert slots; induction order as [|i order IH]; intros slots Hall; [reflexivity|].
  inversion Hall as [|? ? Hi Hrest]; subst.
  simpl. rewrite lookup_map_list.
  destruct (lookup_lt_is_Some_2 xs i Hi) as [a Ha]. rewrite Ha. simpl.
  rewrite IH by exact Hrest. now rewrite ?Ha.
Qed.

Lemma foldl_insert_lookup {A} (xs : list A) (order : list nat)
  (slots : list (option A)) (j : nat) :
  foldl (fun s i => <[i := xs !! i]> s) slots order !! j
  = if bool_decide (j ∈ order /\ j < length slots)%nat then Some (xs !! j) else slots !! j.
Proof.
  revert slots; induction order as [|i order IH]; intros slots.
  - rewrite bool_decide_eq_false_2; [reflexivity|].
    intros [H _]. apply elem_of_nil in H. exact H.
  - simpl foldl. rewrite IH, length_insert.
    case_bool_decide as H1; case_bool_decide as H2; try reflexivity.
    + exfalso. apply H2. destruct H1 as [Hin Hlt]. split; [|exact Hlt].
      apply elem_of_cons. right. exact Hin.
    + destruct (decide (i = j)) as [->|Hne].
      * apply list_lookup_insert_eq. apply H2.
      * exfalso. destruct H2 as [Hin Hlt]. apply elem_of_cons in Hin as [->|Hin]; [done|].
        apply H1. split; assumption.
    + destruct (decide (i = j)) as [->|Hne].
      * destruct (decide (j < length slots)%nat) as [Hlt|Hge].
        -- exfalso. apply H2. split; [apply elem_of_cons; left; reflexivity | exact Hlt].
        -- rewrite list_insert_ge by lia. reflexivity.
      * apply list_lookup_insert_ne. exact Hne.
Qed.

Lemma map_exc_map_Some {A} (f : option A -> Exc + A) (xs : list A) :
  (forall a, f (Some a) = inr a) -> map_exc f (map Some xs) = inr xs.
Proof.
  intros Hf. induction xs as [|x xs IH]; simpl; [reflexivity|]. now rewrite Hf, IH.
Qed.

(** [asyncio.gather]: whatever the completion order, the results come back
    in argument order. *)
Lemma gather_permutation {A} (xs : list A) (order : list nat) :
  order ≡ₚ seq 0 (length xs) -> gather order (map inr xs) = inr xs.
Proof.
  intros Hperm.
  assert (Hin : forall j, j ∈ order <-> (j < length xs)%nat).
  { intros j. rewrite Hperm, elem_of_seq. lia. }
  unfold gather. rewrite length_map, gather_slots_inr.
  2:{ apply Forall_forall. intros j Hj. apply Hin. exact Hj. }
  replace (foldl _ (replicate (length xs) None) order) with (map Some xs).
  - apply map_exc_map_Some. intros a. reflexivity.
  - apply list_eq. intros j.
    rewrite lookup_map_list, foldl_insert_lookup, length_replicate.
    case_bool_decide as H.
    + destruct H as [_ Hj]. destruct (lookup_lt_is_Some_2 xs j Hj) as [a ->]. reflexivity.
    + assert (Hge : (length xs <= j)%nat).
      { destruct (decide (j < length xs)%nat) as [Hj|Hj]; [|lia].
        exfalso. apply H. split; [apply Hin|]; exact Hj. }
      rewrite (lookup_ge_None_2 xs j Hge).
      rewrite lookup_ge_None_2 by (rewrite length_replicate; exact Hge). reflexivity.
Qed.

Lemma build_id2tool_obs_fold (ps : list (BaseMessage * BaseMessage))
  (m : gmap string BaseMessage) :
  Forall (fun p => attr_tool_call_id p.1 = inr (request_id p.1)) ps ->
  build_id2tool_obs ps m = inr (foldl (fun m p => <[request_id p.1 := p.2]> m) m ps).
Proof.
  revert m; induction ps as [|[tc ob] ps IH]; intros m Hall; [reflexivity|].
  inversion Hall as [|? ? Htc Hrest]; subst. simpl in Htc |- *.
  rewrite Htc. apply IH. exact Hrest.
Qed.

Lemma foldl_insert_notin (ps : list (BaseMessage * BaseMessage))
  (m : gmap string BaseMessage) (i : string) :
  i ∉ map (fun p => request_id p.1) ps ->
  foldl (fun m p => <[request_id p.1 := p.2]> m) m ps !! i = m !! i.
Proof.
  revert m; induction ps as [|[tc ob] ps IH]; intros m Hni; [reflexivity|].
  simpl in Hni |- *. apply not_elem_of_cons in Hni as [Hne Hni].
  rewrite IH by exact Hni. apply lookup_insert_ne.
  intros Heq. apply Hne. symmetry. exact Heq.
Qed.

Lemma foldl_insert_in (ps : list (BaseMessage * BaseMessage))
  (m : gmap string BaseMessage) (tc ob : BaseMessage) :
  NoDup (map (fun p => request_id p.1) ps) -> (tc, ob) ∈ ps ->
  foldl (fun m p => <[request_id p.1 := p.2]> m) m ps !! request_id tc = Some ob.
Proof.
  revert m; induction ps as [|[tc' ob'] ps IH]; intros m Hnd Hin.
  - apply elem_of_nil in Hin. contradiction.
  - simpl in Hnd |- *. apply NoDup_cons in Hnd as [Hni Hnd].
    apply elem_of_cons in Hin as [Heq|Hin].
    + injection Heq as -> ->. rewrite foldl_insert_notin by exact Hni.
      apply lookup_insert_eq.
    + apply IH; assumption.
Qed.

Lemma map_fst_zip {A B C} (f : A -> C) (l : list A) (k : list B) :
  length l = length k -> map (fun p => f p.1) (zip l k) = map f l.
Proof.
  revert k; induction l as [|x l IH]; intros [|y k] Hlen; simpl in *; try discriminate;
    [reflexivity|]. rewrite IH by lia. reflexivity.
Qed.

Lemma Forall2_of_zip {A B} (P : A -> B -> Prop) (l : list A) (k : list B) :
  length l = length k -> (forall x y, (x, y) ∈ zip l k -> P x y) -> Forall2 P l k.
Proof.
  revert k; induction l as [|x l IH]; intros [|y k] Hlen H; simpl in *; try discriminate.
  - constructor.
  - constructor.
    + apply H. apply elem_of_cons. left. reflexivity.
    + apply IH; [lia|]. intros a b Hab. apply H. apply elem_of_cons. right. exact Hab.
Qed.

Lemma extend_scratchpad_paired (M : gmap string BaseMessage)
  (tcs obs sp : list BaseMessage) :
  Forall (fun tc => attr_tool_call_id tc = inr (request_id tc)) tcs ->
  Forall2 (fun tc ob => M !! request_id tc = Some ob) tcs obs ->
  extend_scratchpad M tcs sp = inr (sp ++ paired tcs obs).
Proof.
  intros Hall H2. revert sp Hall.
  induction H2 as [|tc ob tcs obs Hl _ IH]; intros sp Hall; simpl.
  - now rewrite app_nil_r.
  - inversion Hall as [|? ? Htc Hrest]; subst. rewrite Htc, Hl.
    rewrite IH by exact Hrest. rewrite <- app_assoc. reflexivity.
Qed.

Lemma execute_tool_ai (env : Env) (c : string) (t : ToolCall) (ts : list ToolCall)
  (i : option string) (src : option string) :
  execute_tool env (AIMessage c (t :: ts) i) src =
  match assoc (tc_name t) (name2tool env) with
  | None => inl (KeyError (tc_name t))
  | Some f =>
      match call_kwargs f (inject_source t src) with
      | inl e => inl e
      | inr out => inr (ToolMessage out (tc_id t))
      end
  end.
Proof. reflexivity. Qed.

Lemma built_request_id (tc : BaseMessage) :
  built_request tc -> attr_tool_call_id tc = inr (request_id tc).
Proof.
  destruct tc as [c|c|c [|t ts] [i|]|v i]; simpl; intros Hb; try contradiction.
  reflexivity.
Qed.

Lemma execute_tool_result_id (env : Env) (tc r : BaseMessage) (src : option string) :
  built_request tc -> execute_tool env tc src = inr r ->
  attr_tool_call_id r = attr_tool_call_id tc.
Proof.
  destruct tc as [c|c|c [|t ts] [i|]|v i]; intros Hb; simpl in Hb; try contradiction.
  subst i. rewrite execute_tool_ai.
  destruct (assoc (tc_name t) (name2tool env)) as [f|]; [|discriminate].
  destruct (call_kwargs f (inject_source t src)) as [e|out]; [discriminate|].
  intros H. injection H as <-. reflexivity.
Qed.

(** C6.  Let the requests of one turn be built as [stream] builds them,
    with pairwise distinct ids, and let their tasks complete in any order
    (a permutation of the submission order).  If every task returns, the
    dispatch appends to the scratchpad each request followed by its own
    result, in request order, and each result's [tool_call_id] is the id
    of its request. *)
Theorem dispatch_turn_pairs_by_id (env : Env) (order : list nat) (src : option string)
  (tool_calls results sp : list BaseMessage)
  (Hbuilt : Forall built_request tool_calls)
  (Hdistinct : NoDup (map request_id tool_calls))
  (Horder : order ≡ₚ seq 0 (length tool_calls))
  (Hexec : Forall2 (fun tc r => execute_tool env tc src = inr r) tool_calls results) :
  dispatch_turn env order src tool_calls sp = inr (sp ++ paired tool_calls results) /\
  Forall2 (fun tc r => attr_tool_call_id r = attr_tool_call_id tc) tool_calls results.
Proof.
  assert (Hlen : length tool_calls = length results) by exact (Forall2_length _ _ _ Hexec).
  assert (Hids : Forall (fun tc => attr_tool_call_id tc = inr (request_id tc)) tool_calls).
  { eapply Forall_impl; [exact Hbuilt|]. exact built_request_id. }
  split.
  - unfold dispatch_turn.
    rewrite (map_inr_of_Forall2 _ _ _ Hexec).
    rewrite gather_permutation by (rewrite <- Hlen; exact Horder).
    rewrite build_id2tool_obs_fold.
    2:{ apply Forall_forall. intros [tc r] Hin. simpl.
        apply elem_of_zip_l in Hin. rewrite Forall_forall in Hids. apply Hids. exact Hin. }
    apply extend_scratchpad_paired; [exact Hids|].
    apply Forall2_of_zip; [exact Hlen|]. intros tc r Hin.
    apply foldl_insert_in; [|exact Hin].
    rewrite map_fst_zip by exact Hlen. exact Hdistinct.
  - clear - Hbuilt Hexec. revert Hbuilt.
    induction Hexec as [|tc r tcs rs Hx _ IH]; intros Hbuilt; constructor.
    + inversion Hbuilt as [|? ? Hb _]. eapply execute_tool_result_id; eassumption.
    + apply IH. inversion Hbuilt as [|? ? _ Hbs]. exact Hbs.
Qed.

Lemma dispatch_turn_pairs_by_id_witness :
  dispatch_turn env0 (completion_order env0 0 2) None
    [xy_request "call_a" "add" 2 2; xy_request "call_b" "multiply" 2 3] []
  = inr (paired [xy_request "call_a" "add" 2 2; xy_request "call_b" "multiply" 2 3]
                [ToolMessage (VFloat 4) "call_a"; ToolMessage (VFloat 6) "call_b"]) /\
  Forall2 (fun tc r => attr_tool_call_id r = attr_tool_call_id tc)
    [xy_request "call_a" "add" 2 2; xy_request "call_b" "multiply" 2 3]
    [ToolMessage (VFloat 4) "call_a"; ToolMessage (VFloat 6) "call_b"].
Proof.
  apply (dispatch_turn_pairs_by_id env0 (completion_order env0 0 2) None
           [xy_request "call_a" "add" 2 2; xy_request "call_b" "multiply" 2 3]
           [ToolMessage (VFloat 4) "call_a"; ToolMessage (VFloat 6) "call_b"] []).
  - repeat constructor.
  - apply (bool_decide_unpack _). vm_compute. exact I.
  - apply (bool_decide_unpack _). vm_compute. exact I.
  - repeat constructor; vm_compute; reflexivity.
Defined.

(** ** C1: the iteration bound and the fallback *)

Lemma stream_counts_one_turn (llm : LLM) (q : string) (ch sp : list BaseMessage)
  (st : AgentState) : turns (stream llm q ch sp st).2 = S (turns st).
Proof.
  unfold stream. destruct (llm_turn llm q ch sp) as [chunks outcome].
  destruct (consume chunks (streamer (count_turn st)) []) as [h [e|outs]];
    [|destruct outcome]; reflexivity.
Qed.

Lemma find_final_answer_app (l1 l2 : list BaseMessage) :
  find_final_answer (l1 ++ l2) =
  match find_final_answer l1 with Some t => Some t | None => find_final_answer l2 end.
Proof.
  induction l1 as [|m l1 IH]; [reflexivity|].
  destruct m as [c|c|c [|t ts] i|v i]; simpl; try exact IH.
  case_bool_decide; [reflexivity | exact IH].
Qed.

Lemma find_final_answer_app_l (l1 l2 : list BaseMessage) :
  find_final_answer l1 <> None -> find_final_answer (l1 ++ l2) <> None.
Proof. rewrite find_final_answer_app. destruct (find_final_answer l1); congruence. Qed.

Lemma find_final_answer_app_r (l1 l2 : list BaseMessage) :
  find_final_answer l2 <> None -> find_final_answer (l1 ++ l2) <> None.
Proof. rewrite find_final_answer_app. destruct (find_final_answer l1); congruence. Qed.

(** Every request of the turn is copied to the scratchpad, so a final-answer
    request of the turn is found there. *)
Lemma extend_scratchpad_keeps_final (M : gmap string BaseMessage)
  (tcs sp sp' : list BaseMessage) :
  extend_scratchpad M tcs sp = inr sp' ->
  find_final_answer tcs <> None \/ find_final_answer sp <> None ->
  find_final_answer sp' <> None.
Proof.
  revert sp; induction tcs as [|tc tcs IH]; intros sp Hx Hf; simpl in Hx.
  - injection Hx as <-. destruct Hf as [Hf|Hf]; [exfalso; apply Hf; reflexivity | exact Hf].
  - destruct (attr_tool_call_id tc) as [e|i]; [discriminate|].
    destruct (M !! i) as [ob|]; [|discriminate].
    apply (IH _ Hx).
    destruct Hf as [Hf|Hf].
    + change (tc :: tcs) with ([tc] ++ tcs) in Hf. rewrite find_final_answer_app in Hf.
      destruct (find_final_answer [tc]) eqn:Ht.
      * right. apply find_final_answer_app_r.
        change [tc; ob] with ([tc] ++ [ob]). apply find_final_answer_app_l. congruence.
      * left. exact Hf.
    + right. apply find_final_answer_app_l. exact Hf.
Qed.

Lemma dispatch_turn_keeps_final (env : Env) (order : list nat) (src : option string)
  (tcs sp sp' : list BaseMessage) :
  dispatch_turn env order src tcs sp = inr sp' ->
  find_final_answer tcs <> None -> find_final_answer sp' <> None.
Proof.
  unfold dispatch_turn. intros Hd Hf.
  destruct (gather _ _) as [e|obs]; [discriminate|].
  destruct (build_id2tool_obs _ _) as [e|M]; [discriminate|].
  apply (extend_scratchpad_keeps_final M tcs sp sp' Hd). left. exact Hf.
Qed.

(** The loop starts at most [fuel] turns, and a final-answer call it returns
    was requested in the returned scratchpad. *)
Lemma agent_loop_turns_final (ex : Executor) (llm : LLM) (env : Env) (input : string)
  (src : option string) (ch : list BaseMessage) (fuel : nat) :
  forall (count : Z) (sp : list BaseMessage) (st : AgentState),
  let '(r, st') := agent_loop ex llm env input src ch fuel count sp st in
  (turns st' <= turns st + fuel)%nat /\
  forall sp' fc a, r = inr (sp', Some (fc, a)) -> find_final_answer sp' <> None.
Proof.
  induction fuel as [|fuel IH]; intros count sp st.
  - simpl. split; [lia | discriminate].
  - cbn [agent_loop]. destruct (count <? max_iterations ex).
    2:{ unfold st_ret. split; [lia | discriminate]. }
    unfold st_bind at 1.
    pose proof (stream_counts_one_turn llm input ch sp st) as Hst.
    destruct (stream llm input ch sp st) as [[e|tcs] st1]; simpl in Hst.
    { split; [lia | discriminate]. }
    unfold st_bind at 1.
    destruct (dispatch_turn env (completion_order env count (length tcs)) src tcs sp)
      as [e|sp1] eqn:Hd; simpl.
    { split; [lia | discriminate]. }
    destruct (find_final_answer tcs) as [fc|] eqn:Hf.
    + destruct (assoc "answer" (tc_args fc)) as [a|]; unfold st_ret, st_raise.
      * split; [lia|]. intros sp' fc' a' Hr. injection Hr as <- _ _.
        apply (dispatch_turn_keeps_final _ _ _ _ _ _ Hd). congruence.
      * split; [lia | discriminate].
    + specialize (IH (count + 1) sp1 st1).
      destruct (agent_loop ex llm env input src ch fuel (count + 1) sp1 st1) as [r st'].
      destruct IH as [IHt IHf]. split; [lia | exact IHf].
Qed.

(** What [invoke] does guarantee.  A call of [invoke] with iteration bound N
    starts at most N model turns and always ends, returning or raising
    (the model is a total function; exceptions of a turn, a tool or the
    summariser propagate).  When it returns and no request in the returned
    scratchpad is a [final_answer] call, the payload is the fixed fallback:
    answer "No answer found", empty [tools_used]. *)
Theorem invoke_bounded_fallback (ex : Executor) (llm : LLM) (env : Env)
  (input session_id : string) (src : option string) (st : AgentState) :
  let '(r, st') := invoke ex llm env input session_id src st in
  (turns st' <= turns st + Z.to_nat (max_iterations ex))%nat /\
  forall v sp, r = inr (v, sp) -> find_final_answer sp = None -> v = fallback_payload.
Proof.
  unfold invoke, st_bind at 1, get_memory.
  set (st0 := match memory_map st !! session_id with
              | Some h => (inr h, st)
              | None => (inr (mkHistory [] (exec_k ex)), set_memory session_id
                                                           (mkHistory [] (exec_k ex)) st)
              end).
  assert (Ht0 : turns st0.2 = turns st) by (subst st0; destruct (memory_map st !! session_id); reflexivity).
  destruct st0 as [[e|memory] st1]; simpl in Ht0.
  { split; [lia | discriminate]. }
  unfold st_bind at 1.
  pose proof (agent_loop_turns_final ex llm env input src (messages memory)
                (Z.to_nat (max_iterations ex)) 0 [] st1) as HL.
  destruct (agent_loop ex llm env input src (messages memory)
              (Z.to_nat (max_iterations ex)) 0 [] st1) as [[e|[sp fa]] st2].
  { destruct HL as [HLt _]. split; [lia | discriminate]. }
  destruct HL as [HLt HLf].
  unfold st_bind at 1.
  destruct fa as [[fc a]|].
  - specialize (HLf sp fc a eq_refl).
    destruct (py_truthy a); [destruct a; cbn [st_ret st_raise] | cbn [st_ret]].
    all: try (split; [lia | discriminate]).
    all: unfold st_bind; destruct (add_messages llm _ memory) as [[e|[]] mem];
      cbn [turns set_memory st_ret]; (split; [lia|]);
      intros v sp' Hr Hn; try discriminate; injection Hr as _ <-; contradiction.
  - cbn [py_truthy st_ret].
    unfold st_bind; destruct (add_messages llm _ memory) as [[e|[]] mem];
      cbn [turns set_memory st_ret]; (split; [lia|]); intros v sp' Hr Hn; [discriminate|].
    injection Hr as <- _. reflexivity.
Qed.

(** C1 (code bug): [invoke] does not always return when no turn produced a
    [final_answer] call.  With a source hint, a model asking for the
    retrieval tool makes [invoke] raise after its first turn instead of
    returning the fallback: [execute_tool] adds a [source] argument that
    [retrieval_tool(query)] does not accept, and the TypeError propagates. *)
Lemma invoke_raises_on_source_hint :
  let '(r, st) := invoke executor3 retrieving_llm env0 "what are decorators?" "s"
                    (Some "guide.md") fresh_state in
  r = inl (TypeError "got an unexpected keyword argument 'source'") /\ turns st = 1%nat.
Proof. vm_compute. split; reflexivity. Qed.

(* ================================================================== *)
(** * Further properties of the code *)

(** ** The history of src/memory.py *)

Lemma py_slice_to_pos_cons {A} (b : Z) (ms : list A) :
  0 < b -> ms <> [] -> exists y ys, py_slice_to b ms = y :: ys.
Proof.
  intros Hb Hms. destruct ms as [|x xs]; [congruence|].
  unfold py_slice_to, py_slice_bound.
  replace (b <? 0) with false by (symmetry; apply Z.ltb_ge; lia).
  cbn [length].
  replace (Z.to_nat (Z.min b (Z.of_nat (S (length xs)))))
    with (S (Z.to_nat (Z.min b (Z.of_nat (S (length xs))) - 1))) by lia.
  simpl. eauto.
Qed.

(** X1: for [k >= 0] the history of src/memory.py (which summarises
    [if old_messages:]) stores exactly what the agent's history stores
    (which summarises unless [old_messages is None]), provided the
    summariser answers both instruction wordings alike. *)
Lemma memory_add_messages_agrees (llm : LLM) (new : list BaseMessage) (h : History)
  (Hk : 0 <= k h)
  (Hsum : forall a b, llm_invoke llm (memory_summary_messages a b) =
                      llm_invoke llm (summary_messages a b)) :
  memory_add_messages llm new h = add_messages llm new h.
Proof.
  unfold memory_add_messages, add_messages.
  destruct (match messages h with SystemMessage c :: r => (Some c, r) | l => (None, l) end)
    as [es rest].
  destruct (Z.of_nat (length (rest ++ new)) >? k h) eqn:Hgt.
  - apply Z.gtb_lt in Hgt.
    destruct (py_slice_to_pos_cons (Z.of_nat (length (rest ++ new)) - k h) (rest ++ new))
      as (y & ys & Hy); [lia| intros E; rewrite E in Hgt; simpl in Hgt; lia|].
    rewrite Hy, <- Hy, Hsum. reflexivity.
  - reflexivity.
Qed.

Lemma memory_add_messages_agrees_witness :
  0 <= k (mkHistory [HumanMessage "hi"] 1) /\
  (forall a b, llm_invoke adding_llm (memory_summary_messages a b) =
               llm_invoke adding_llm (summary_messages a b)) /\
  memory_add_messages adding_llm [AIMessage "hello" [] None] (mkHistory [HumanMessage "hi"] 1) =
  add_messages adding_llm [AIMessage "hello" [] None] (mkHistory [HumanMessage "hi"] 1).
Proof.
  split; [simpl; lia|]. split; [reflexivity|].
  apply memory_add_messages_agrees; [simpl; lia| reflexivity].
Defined.

(** ** What a request changes in the executor's state *)

Lemma agent_loop_preserves (P : AgentState -> Prop) (ex : Executor) (llm : LLM)
  (env : Env) (input : string) (src : option string) (ch : list BaseMessage)
  (Hstream : forall sp st, P st -> P (stream llm input ch sp st).2) :
  forall fuel count sp st, P st -> P (agent_loop ex llm env input src ch fuel count sp st).2.
Proof.
  induction fuel as [|fuel IH]; intros count sp st Hst; [exact Hst|].
  cbn [agent_loop]. destruct (count <? max_iterations ex); [|exact Hst].
  unfold st_bind at 1.
  pose proof (Hstream sp st Hst) as H1.
  destruct (stream llm input ch sp st) as [[e|tcs] st1]; [exact H1|].
  unfold st_bind at 1. simpl in H1.
  destruct (dispatch_turn env _ src tcs sp) as [e|sp1]; [exact H1|].
  destruct (find_final_answer tcs) as [fc|].
  - destruct (assoc "answer" (tc_args fc)); exact H1.
  - apply IH. exact H1.
Qed.

Lemma invoke_preserves (P : AgentState -> Prop) (ex : Executor) (llm : LLM) (env : Env)
  (input session_id : string) (src : option string) (st : AgentState)
  (Hstream : forall ch sp st, P st -> P (stream llm input ch sp st).2)
  (Hset : forall h st, P st -> P (set_memory session_id h st))
  (Hget : P (get_memory ex session_id st).2) :
  P (invoke ex llm env input session_id src st).2.
Proof.
  unfold invoke, st_bind at 1.
  destruct (get_memory ex session_id st) as [[e|memory] st1]; [exact Hget|].
  unfold st_bind at 1.
  pose proof (agent_loop_preserves P ex llm env input src (messages memory)
                (fun sp st => Hstream (messages memory) sp st)
                (Z.to_nat (max_iterations ex)) 0 [] st1 Hget) as HL.
  destruct (agent_loop ex llm env input src (messages memory) _ 0 [] st1)
    as [[e|[sp fa]] st2]; [exact HL|].
  unfold st_bind at 1.
  destruct fa as [[fc a]|]; cbn [py_truthy].
  - destruct (py_truthy a); [destruct a|]; cbn [st_ret st_raise]; try exact HL;
      unfold st_bind; destruct (add_messages llm _ memory) as [[e|[]] mem];
      apply Hset; exact HL.
  - cbn [st_ret]. unfold st_bind; destruct (add_messages llm _ memory) as [[e|[]] mem];
      apply Hset; exact HL.
Qed.

Lemma stream_memory_map (llm : LLM) (q : string) (ch sp : list BaseMessage) (st : AgentState) :
  memory_map (stream llm q ch sp st).2 = memory_map st.
Proof.
  unfold stream. destruct (llm_turn llm q ch sp) as [chunks outcome].
  destruct (consume chunks (streamer (count_turn st)) []) as [h [e|outs]];
    [|destruct outcome]; reflexivity.
Qed.

(** X3: a request for session [session_id] leaves the stored history of
    every other session as it was, whether it returns or raises, and
    [session_id] has a history afterwards. *)
Theorem invoke_session_frame (ex : Executor) (llm : LLM) (env : Env)
  (input session_id : string) (src : option string) (st : AgentState)
  (other : string) (Hne : other <> session_id) :
  memory_map (invoke ex llm env input session_id src st).2 !! other = memory_map st !! other /\
  is_Some (memory_map (invoke ex llm env input session_id src st).2 !! session_id).
Proof.
  split.
  - apply (invoke_preserves (fun st' => memory_map st' !! other = memory_map st !! other)).
    + intros ch sp st' H. rewrite stream_memory_map. exact H.
    + intros h st' H. simpl. rewrite lookup_insert_ne by congruence. exact H.
    + unfold get_memory. destruct (memory_map st !! session_id); [reflexivity|].
      simpl. apply lookup_insert_ne. congruence.
  - apply (invoke_preserves (fun st' => is_Some (memory_map st' !! session_id))).
    + intros ch sp st' H. rewrite stream_memory_map. exact H.
    + intros h st' _. simpl. rewrite lookup_insert_eq. eauto.
    + unfold get_memory. destruct (memory_map st !! session_id) eqn:E; simpl.
      * rewrite E. eauto.
      * rewrite lookup_insert_eq. eauto.
Qed.

Lemma invoke_session_frame_witness :
  let st := mkAgentState (<["other" := mkHistory [HumanMessage "earlier"] 6]> ∅)
                         (mkHandler [] false) 0 in
  memory_map (invoke executor3 adding_llm env0 "what is 2+2" "s" None st).2 !! "other"
    = memory_map st !! "other" /\
  is_Some (memory_map (invoke executor3 adding_llm env0 "what is 2+2" "s" None st).2 !! "s").
Proof.
  apply invoke_session_frame. discriminate.
Defined.

(** ** The consumer of a request's stream *)

Lemma aiter_no_done (q : list QueueItem) : QDone ∉ q -> aiter q = None.
Proof.
  induction q as [|x q IH]; intros Hn; [reflexivity|].
  apply not_elem_of_cons in Hn as [Hx Hn].
  destruct x as [[c|]| |]; simpl; try (rewrite IH by exact Hn); try reflexivity.
  congruence.
Qed.

(** A handler that has either seen a final-answer chunk or holds no DONE. *)
Definition done_only_if_seen (h : Handler) : Prop :=
  final_answer_seen h = true \/ QDone ∉ queue h.

Lemma put_nowait_done_only_if_seen (x : QueueItem) (h : Handler) :
  x <> QDone -> done_only_if_seen h -> done_only_if_seen (put_nowait x h).
Proof.
  intros Hx [Hf|Hq]; [left; exact Hf|right]. simpl.
  rewrite elem_of_app, list_elem_of_singleton. intros [H|H]; [exact (Hq H)|congruence].
Qed.

Lemma consume_done_only_if_seen (cs : list Chunk) (h : Handler) (outs : list Acc) :
  done_only_if_seen h -> done_only_if_seen (consume cs h outs).1.
Proof.
  revert h outs; induction cs as [|c cs IH]; intros h outs Hh; [exact Hh|].
  assert (Hh' : done_only_if_seen (on_llm_new_token (Some c) h)).
  { unfold on_llm_new_token. destruct (names_final_answer c).
    - left. reflexivity.
    - apply put_nowait_done_only_if_seen; [discriminate|]. exact Hh. }
  simpl. destruct (accumulate outs c); [exact Hh'|]. apply IH; assumption.
Qed.

Lemma on_llm_end_done_only_if_seen (h : Handler) :
  done_only_if_seen h -> done_only_if_seen (on_llm_end h).
Proof.
  intros Hh. unfold on_llm_end. destruct (final_answer_seen h) eqn:Hf.
  - left. exact Hf.
  - apply put_nowait_done_only_if_seen; [discriminate|exact Hh].
Qed.

(** X4: the consumer of a request's queue ([QueueCallbackHandler.__aiter__])
    ends only on "<<DONE>>", which is put only by [on_llm_end] once the
    handler has seen a chunk naming [final_answer] (its flag is set by
    each such chunk and never reset).  So if, when [invoke] is over, the
    fresh handler of the request has seen no such chunk in the turns
    [invoke] ran (the bound was reached, or a turn or a tool raised before
    the model named [final_answer]), its queue holds no DONE and the
    consumer keeps polling forever. *)
Theorem invoke_without_final_answer_never_done (ex : Executor) (llm : LLM) (env : Env)
  (input session_id : string) (src : option string) (st : AgentState)
  (Hfresh : quiet (streamer st))
  (Hnofinal : final_answer_seen (streamer (invoke ex llm env input session_id src st).2) = false) :
  aiter (queue (streamer (invoke ex llm env input session_id src st).2)) = None.
Proof.
  apply aiter_no_done.
  assert (H : done_only_if_seen (streamer (invoke ex llm env input session_id src st).2)).
  { apply (invoke_preserves (fun st' => done_only_if_seen (streamer st'))).
    - intros ch sp st' H. unfold stream.
      destruct (llm_turn llm input ch sp) as [chunks outcome].
      pose proof (consume_done_only_if_seen chunks (streamer (count_turn st')) [] H) as Hc.
      destruct (consume chunks (streamer (count_turn st')) []) as [h [e|outs]];
        [|destruct outcome]; simpl in *; [exact Hc|exact Hc|].
      apply on_llm_end_done_only_if_seen. exact Hc.
    - intros h st' H. exact H.
    - unfold get_memory. destruct Hfresh as [_ Hq].
      destruct (memory_map st !! session_id); right; exact Hq. }
  destruct H as [H|H]; [congruence|exact H].
Qed.

Lemma invoke_without_final_answer_never_done_witness :
  quiet (streamer fresh_state) /\
  final_answer_seen (streamer (invoke executor3 retrieve_then_answer_llm env_docs "what are decorators?"
                                 "s" (Some "guide.md") fresh_state).2) = false /\
  aiter (queue (streamer (invoke executor3 retrieve_then_answer_llm env_docs "what are decorators?"
                            "s" (Some "guide.md") fresh_state).2)) = None.
Proof.
  assert (Hq : quiet (streamer fresh_state)).
  { split; [reflexivity|]. apply not_elem_of_nil. }
  assert (Hn : final_answer_seen (streamer (invoke executor3 retrieve_then_answer_llm env_docs
                 "what are decorators?" "s" (Some "guide.md") fresh_state).2) = false)
    by (vm_compute; reflexivity).
  split; [exact Hq|]. split; [exact Hn|].
  exact (invoke_without_final_answer_never_done _ _ _ _ _ _ _ Hq Hn).
Defined.

(** ** The source hint of [execute_tool] *)

Lemma dict_set_has_key {A} (key : string) (v : A) (d : list (string * A)) :
  (key, v) ∈ dict_set key v d.
Proof.
  induction d as [|[k' v'] d IH]; simpl.
  - apply elem_of_cons. left. reflexivity.
  - case_bool_decide as H.
    + subst. apply elem_of_cons. left. reflexivity.
    + apply elem_of_cons. right. exact IH.
Qed.

(** X6: with a non-empty source hint, every call of [retrieval_tool]
    raises a TypeError for an unexpected keyword argument, whatever its
    arguments and the store: the hint is added as a [source] argument,
    which [retrieval_tool(query)] does not accept. *)
Theorem execute_tool_source_breaks_retrieval (env : Env) (c : string) (t : ToolCall)
  (ts : list ToolCall) (i : option string) (s : string)
  (Hname : tc_name t = "retrieval_tool") (Hs : s <> EmptyString) :
  exists n, execute_tool env (AIMessage c (t :: ts) i) (Some s)
            = inl (TypeError ("got an unexpected keyword argument '" +:+ n +:+ "'")%string).
Proof.
  rewrite execute_tool_ai, Hname.
  change (assoc "retrieval_tool" (name2tool env)) with (Some (retrieval_tool env)).
  cbv iota beta. unfold inject_source. rewrite Hname.
  rewrite bool_decide_eq_true_2 by reflexivity. cbn [id_truthy andb].
  rewrite bool_decide_eq_false_2 by exact Hs. cbn [negb].
  unfold call_kwargs.
  destruct (List.find _ (dict_set "source" (VStr s) (tc_args t))) as [[n v]|] eqn:Hf.
  - exists n. reflexivity.
  - exfalso.
    pose proof (find_none _ _ Hf ("source", VStr s)) as H.
    assert (Hn : "source" ∉ map fst (fn_params (retrieval_tool env))).
    { cbn. rewrite elem_of_cons, elem_of_nil. intros [E|E]; [discriminate|exact E]. }
    cbv beta in H. cbn [fst] in H.
    rewrite (bool_decide_eq_false_2 _ Hn) in H. cbn in H.
    specialize (H ltac:(apply list_elem_of_In; apply dict_set_has_key)). discriminate.
Qed.

Lemma execute_tool_source_breaks_retrieval_witness :
  tc_name (mkToolCall "retrieval_tool" [("query", VStr "decorators")] "call_r") = "retrieval_tool" /\
  "guide.md" <> EmptyString /\
  exists n, execute_tool env_docs
              (AIMessage EmptyString [mkToolCall "retrieval_tool" [("query", VStr "decorators")] "call_r"]
                 (Some "call_r")) (Some "guide.md")
            = inl (TypeError ("got an unexpected keyword argument '" +:+ n +:+ "'")%string).
Proof.
  split; [reflexivity|]. split; [discriminate|].
  apply execute_tool_source_breaks_retrieval; [reflexivity|discriminate].
Defined.

(** ** Shape of the returned scratchpad *)

Lemma scratchpad_ok_app : forall a b : list BaseMessage,
  scratchpad_ok a = true -> scratchpad_ok b = true -> scratchpad_ok (a ++ b) = true.
Proof.
  fix IH 1. intros [|m1 a] b Ha Hb; [exact Hb|].
  destruct m1 as [c1|c1|c1 [|t ts] [i|]|v1 i1]; simpl in Ha; try discriminate.
  destruct a as [|m2 a]; [discriminate|].
  destruct m2 as [c2|c2|c2 tcs2 i2|v2 j]; try discriminate.
  apply andb_true_iff in Ha as [Hij Ha].
  cbn [app scratchpad_ok]. rewrite Hij. simpl. apply IH; assumption.
Qed.

Lemma map_exc_lookup {A B} (f : A -> Exc + B) (l : list A) (ys : list B) :
  map_exc f l = inr ys ->
  forall j y, ys !! j = Some y -> exists x, l !! j = Some x /\ f x = inr y.
Proof.
  revert ys; induction l as [|x l IH]; intros ys Hm j y Hy; simpl in Hm.
  - injection Hm as <-. discriminate.
  - destruct (f x) as [e|y0] eqn:Hf; [discriminate|].
    destruct (map_exc f l) as [e|ys0] eqn:Hl; [discriminate|].
    injection Hm as <-. destruct j as [|j]; simpl in Hy |- *.
    + injection Hy as <-. eauto.
    + exact (IH ys0 eq_refl j y Hy).
Qed.

Lemma map_exc_Forall {A B} (f : A -> Exc + B) (P : B -> Prop) (l : list A) (ys : list B) :
  (forall x y, f x = inr y -> P y) -> map_exc f l = inr ys -> Forall P ys.
Proof.
  intros Hf. revert ys; induction l as [|x l IH]; intros ys Hm; simpl in Hm.
  - injection Hm as <-. constructor.
  - destruct (f x) as [e|y0] eqn:Hx; [discriminate|].
    destruct (map_exc f l) as [e|ys0]; [discriminate|].
    injection Hm as <-. constructor; [exact (Hf x y0 Hx)| exact (IH ys0 eq_refl)].
Qed.

(** Each slot [gather] fills holds the result of the task of that slot. *)
Lemma gather_slots_sound {A} (order : list nat) (rs : list (Exc + A)) :
  forall slots slots',
  gather_slots order rs slots = inr slots' ->
  (forall j a, slots !! j = Some (Some a) -> rs !! j = Some (inr a)) ->
  forall j a, slots' !! j = Some (Some a) -> rs !! j = Some (inr a).
Proof.
  induction order as [|i order IH]; intros slots slots' Hg Hs; simpl in Hg.
  - injection Hg as <-. exact Hs.
  - destruct (rs !! i) as [[e|a]|] eqn:Hi; [discriminate| |exact (IH _ _ Hg Hs)].
    apply (IH _ _ Hg). intros j b Hj.
    destruct (decide (i = j)) as [->|Hne].
    + destruct (decide (j < length slots)%nat) as [Hlt|Hge].
      * rewrite list_lookup_insert_eq in Hj by exact Hlt. injection Hj as <-. exact Hi.
      * rewrite list_insert_ge in Hj by lia. exact (Hs j b Hj).
    + rewrite list_lookup_insert_ne in Hj by exact Hne. exact (Hs j b Hj).
Qed.

Lemma gather_sound {A} (order : list nat) (rs : list (Exc + A)) (xs : list A) :
  gather order rs = inr xs -> forall j x, xs !! j = Some x -> rs !! j = Some (inr x).
Proof.
  unfold gather. intros Hg j x Hx.
  destruct (gather_slots order rs (replicate (length rs) None)) as [e|slots] eqn:Hs;
    [discriminate|].
  destruct (map_exc_lookup _ _ _ Hg j x Hx) as ([a|] & Hj & Ha); [|discriminate].
  injection Ha as <-.
  apply (gather_slots_sound order rs _ _ Hs); [|exact Hj].
  intros j' b Hb. rewrite lookup_replicate in Hb. destruct Hb as [Hb _]. discriminate.
Qed.

Lemma build_id2tool_obs_sound (ps : list (BaseMessage * BaseMessage)) :
  forall m M, build_id2tool_obs ps m = inr M ->
  forall i ob, M !! i = Some ob ->
  m !! i = Some ob \/ exists tc, (tc, ob) ∈ ps /\ attr_tool_call_id tc = inr i.
Proof.
  induction ps as [|[tc ob'] ps IH]; intros m M Hb i ob Hi; simpl in Hb.
  - injection Hb as <-. left. exact Hi.
  - destruct (attr_tool_call_id tc) as [e|i'] eqn:Htc; [discriminate|].
    destruct (IH _ _ Hb i ob Hi) as [Hm|(tc' & Hin & Hid)].
    + destruct (decide (i' = i)) as [->|Hne].
      * rewrite lookup_insert_eq in Hm. injection Hm as ->.
        right. exists tc. split; [apply elem_of_cons; left; reflexivity|exact Htc].
      * rewrite lookup_insert_ne in Hm by exact Hne. left. exact Hm.
    + right. exists tc'. split; [apply elem_of_cons; right; exact Hin|exact Hid].
Qed.

Lemma elem_of_zip_lookup {A B} (l : list A) (k : list B) (x : A) (y : B) :
  (x, y) ∈ zip l k -> exists j, l !! j = Some x /\ k !! j = Some y.
Proof.
  revert k; induction l as [|a l IH]; intros [|b k] Hin; simpl in Hin;
    try (apply elem_of_nil in Hin; contradiction).
  apply elem_of_cons in Hin as [Heq|Hin].
  - injection Heq as -> ->. exists 0%nat. split; reflexivity.
  - destruct (IH k Hin) as (j & Hj1 & Hj2). exists (S j). split; assumption.
Qed.

Lemma execute_tool_tool_message (env : Env) (tc ob : BaseMessage) (src : option string) :
  execute_tool env tc src = inr ob -> exists v i, ob = ToolMessage v i.
Proof.
  intros H. destruct tc as [c|c|c [|t ts] i|v i]; try discriminate H.
  rewrite execute_tool_ai in H.
  destruct (assoc (tc_name t) (name2tool env)) as [f|]; [|discriminate H].
  destruct (call_kwargs f (inject_source t src)) as [e|out]; [discriminate H|].
  injection H as <-. eauto.
Qed.

(** The results a turn files under an id are ToolMessages carrying it. *)
Lemma dispatch_turn_scratchpad_ok (env : Env) (order : list nat) (src : option string)
  (tcs sp sp' : list BaseMessage) :
  Forall built_request tcs -> scratchpad_ok sp = true ->
  dispatch_turn env order src tcs sp = inr sp' -> scratchpad_ok sp' = true.
Proof.
  unfold dispatch_turn. intros Hbuilt Hsp Hd.
  destruct (gather order _) as [e|obs] eqn:Hg; [discriminate|].
  destruct (build_id2tool_obs (zip tcs obs) ∅) as [e|M] eqn:HM; [discriminate|].
  assert (HMok : forall i ob, M !! i = Some ob -> exists v, ob = ToolMessage v i).
  { intros i ob Hi.
    destruct (build_id2tool_obs_sound _ _ _ HM i ob Hi) as [H0|(tc & Hin & Hid)];
      [rewrite lookup_empty in H0; discriminate|].
    destruct (elem_of_zip_lookup _ _ _ _ Hin) as (j & Htc & Hob).
    pose proof (gather_sound _ _ _ Hg j ob Hob) as Hr.
    rewrite lookup_map_list, Htc in Hr. simpl in Hr. injection Hr as Hr.
    assert (Hb : built_request tc).
    { rewrite Forall_lookup in Hbuilt. exact (Hbuilt j tc Htc). }
    pose proof (execute_tool_result_id env tc ob src Hb Hr) as Hid'.
    destruct (execute_tool_tool_message env tc ob src Hr) as (v & i' & ->).
    simpl in Hid'. rewrite Hid in Hid'. injection Hid' as ->. eauto. }
  clear Hg HM. revert sp Hsp Hd.
  induction tcs as [|tc tcs IH]; intros sp Hsp Hd; simpl in Hd.
  - injection Hd as <-. exact Hsp.
  - inversion Hbuilt as [|? ? Hb Hbs]; subst.
    destruct (attr_tool_call_id tc) as [e|i] eqn:Hid; [discriminate|].
    destruct (M !! i) as [ob|] eqn:Hob; [|discriminate].
    apply (IH Hbs (sp ++ [tc; ob])); [|exact Hd].
    apply scratchpad_ok_app; [exact Hsp|].
    destruct (HMok i ob Hob) as [v ->].
    destruct tc as [c|c|c [|t ts] [i'|]|v' i']; simpl in Hb; try contradiction.
    simpl in Hid. injection Hid as <-. subst i'. simpl.
    rewrite !bool_decide_eq_true_2 by reflexivity. reflexivity.
Qed.

Lemma stream_built (llm : LLM) (q : string) (ch sp : list BaseMessage) (st : AgentState)
  (tcs : list BaseMessage) :
  (stream llm q ch sp st).1 = inr tcs -> Forall built_request tcs.
Proof.
  unfold stream. destruct (llm_turn llm q ch sp) as [chunks outcome].
  destruct (consume chunks (streamer (count_turn st)) []) as [h [e|outs]];
    [discriminate|]. destruct outcome as [e|]; [discriminate|]. simpl.
  apply map_exc_Forall. intros a m. unfold to_request.
  destruct (acc_tool_calls llm a) as [|t ts]; [discriminate|].
  intros H. injection H as <-. reflexivity.
Qed.

Lemma agent_loop_scratchpad_ok (ex : Executor) (llm : LLM) (env : Env) (input : string)
  (src : option string) (ch : list BaseMessage) (fuel : nat) :
  forall count sp st, scratchpad_ok sp = true ->
  forall sp' fa, (agent_loop ex llm env input src ch fuel count sp st).1 = inr (sp', fa) ->
  scratchpad_ok sp' = true.
Proof.
  induction fuel as [|fuel IH]; intros count sp st Hsp sp' fa Hr.
  - simpl in Hr. injection Hr as <- _. exact Hsp.
  - cbn [agent_loop] in Hr. destruct (count <? max_iterations ex).
    2:{ injection Hr as <- _. exact Hsp. }
    unfold st_bind at 1 in Hr.
    pose proof (stream_built llm input ch sp st) as Hb.
    destruct (stream llm input ch sp st) as [[e|tcs] st1]; [discriminate|].
    specialize (Hb tcs eq_refl).
    unfold st_bind at 1 in Hr.
    destruct (dispatch_turn env _ src tcs sp) as [e|sp1] eqn:Hd; [discriminate|].
    pose proof (dispatch_turn_scratchpad_ok _ _ _ _ _ _ Hb Hsp Hd) as Hsp1.
    destruct (find_final_answer tcs) as [fc|].
    + destruct (assoc "answer" (tc_args fc)); [|discriminate].
      injection Hr as <- _. exact Hsp1.
    + exact (IH _ _ _ Hsp1 sp' fa Hr).
Qed.

(** X7: whenever [invoke] returns, its scratchpad is a sequence of pairs:
    a request (an AIMessage whose [tool_call_id] is the id of its first
    tool call) followed by a ToolMessage carrying that same id.  No
    assumption on the ids is needed: a result looked up by a shared id is
    still filed under that id. *)
Theorem invoke_scratchpad_pairs (ex : Executor) (llm : LLM) (env : Env)
  (input session_id : string) (src : option string) (st : AgentState)
  (v : Value) (sp : list BaseMessage)
  (Hret : (invoke ex llm env input session_id src st).1 = inr (v, sp)) :
  scratchpad_ok sp = true.
Proof.
  revert Hret. unfold invoke, st_bind at 1.
  destruct (get_memory ex session_id st) as [[e|memory] st1]; [discriminate|].
  unfold st_bind at 1.
  pose proof (agent_loop_scratchpad_ok ex llm env input src (messages memory)
                (Z.to_nat (max_iterations ex)) 0 [] st1 eq_refl) as HL.
  destruct (agent_loop ex llm env input src (messages memory) _ 0 [] st1)
    as [[e|[sp0 fa]] st2]; [discriminate|].
  specialize (HL sp0 fa eq_refl).
  unfold st_bind at 1.
  destruct fa as [[fc a]|]; cbn [py_truthy].
  - destruct (py_truthy a); [destruct a|]; cbn [st_ret st_raise]; try discriminate;
      unfold st_bind; destruct (add_messages llm _ memory) as [[e|[]] mem];
      cbn; try discriminate; intros H; injection H as _ <-; exact HL.
  - cbn [st_ret]. unfold st_bind; destruct (add_messages llm _ memory) as [[e|[]] mem];
      cbn; try discriminate; intros H; injection H as _ <-; exact HL.
Qed.

Lemma invoke_scratchpad_pairs_witness :
  (invoke executor3 adding_llm env0 "what is 2+2" "s" None fresh_state).1
    = inr (tool_call_value (mkToolCall "final_answer" [("answer", VStr "4")] "call_2"),
           [xy_request "call_1" "add" 2 2; ToolMessage (VFloat 4) "call_1";
            AIMessage EmptyString [mkToolCall "final_answer" [("answer", VStr "4")] "call_2"]
              (Some "call_2");
            ToolMessage (VDict [("answer", VStr "4"); ("tools_used", VList [])]) "call_2"]) /\
  scratchpad_ok [xy_request "call_1" "add" 2 2; ToolMessage (VFloat 4) "call_1";
            AIMessage EmptyString [mkToolCall "final_answer" [("answer", VStr "4")] "call_2"]
              (Some "call_2");
            ToolMessage (VDict [("answer", VStr "4"); ("tools_used", VList [])]) "call_2"] = true.
Proof.
  assert (H : (invoke executor3 adding_llm env0 "what is 2+2" "s" None fresh_state).1
    = inr (tool_call_value (mkToolCall "final_answer" [("answer", VStr "4")] "call_2"),
           [xy_request "call_1" "add" 2 2; ToolMessage (VFloat 4) "call_1";
            AIMessage EmptyString [mkToolCall "final_answer" [("answer", VStr "4")] "call_2"]
              (Some "call_2");
            ToolMessage (VDict [("answer", VStr "4"); ("tools_used", VList [])]) "call_2"]))
    by (vm_compute; reflexivity).
  split; [exact H|]. exact (invoke_scratchpad_pairs _ _ _ _ _ _ _ _ _ H).
Defined.

(** ** The Chroma collection: delete *)

Lemma filter_ext_eq {A} (f g : A -> bool) (l : list A) :
  (forall x, f x = g x) -> List.filter f l = List.filter g l.
Proof. intros H. induction l as [|x l IH]; simpl; [reflexivity|]. now rewrite H, IH. Qed.

Lemma filter_filter_and {A} (f g : A -> bool) (l : list A) :
  List.filter f (List.filter g l) = List.filter (fun x => g x && f x) l.
Proof.
  induction l as [|x l IH]; simpl; [reflexivity|].
  destruct (g x); simpl; [destruct (f x); simpl|]; rewrite IH; reflexivity.
Qed.

Lemma length_filter_split {A} (f : A -> bool) (l : list A) :
  length l = (length (List.filter f l) + length (List.filter (fun x => negb (f x)) l))%nat.
Proof. induction l as [|x l IH]; simpl; [reflexivity|]. destruct (f x); simpl; lia. Qed.

(** How deleting the chunks of [n] changes the count of the chunks of [m]. *)
Lemma chroma_delete_count (n m : string) (store : list ChromaDoc) :
  length (List.filter (fun d => bool_decide (cd_source d = Some m)) (chroma_delete n store)) =
  if bool_decide (m = n) then 0%nat
  else length (List.filter (fun d => bool_decide (cd_source d = Some m)) store).
Proof.
  unfold chroma_delete. rewrite filter_filter_and.
  case_bool_decide as Hmn.
  - subst m. induction store as [|d store IH]; simpl; [reflexivity|].
    destruct (bool_decide (cd_source d = Some n)); simpl; exact IH.
  - f_equal. apply filter_ext_eq. intros d.
    destruct (decide (cd_source d = Some m)) as [E|E].
    + rewrite E, (bool_decide_eq_true_2 (Some m = Some m)) by reflexivity.
      rewrite bool_decide_eq_false_2 by congruence. reflexivity.
    + rewrite (bool_decide_eq_false_2 (cd_source d = Some m)) by exact E.
      apply andb_false_r.
Qed.

Lemma chroma_delete_removed (n : string) (store : list ChromaDoc) :
  (length store - length (chroma_delete n store))%nat =
  length (List.filter (fun d => bool_decide (cd_source d = Some n)) store).
Proof.
  rewrite (length_filter_split (fun d => bool_decide (cd_source d = Some n)) store).
  unfold chroma_delete. lia.
Qed.

Lemma dict_set_assoc {A} (key n : string) (v : A) (d : list (string * A)) :
  assoc n (dict_set key v d) = if bool_decide (n = key) then Some v else assoc n d.
Proof.
  induction d as [|[k' v'] d IH]; simpl.
  - case_bool_decide; reflexivity.
  - destruct (decide (k' = key)) as [->|Hk].
    + rewrite (bool_decide_eq_true_2 (key = key)) by reflexivity. simpl.
      destruct (decide (n = key)) as [->|Hn].
      * rewrite !bool_decide_eq_true_2 by reflexivity. reflexivity.
      * rewrite !(bool_decide_eq_false_2 (n = key)) by exact Hn. reflexivity.
    + rewrite (bool_decide_eq_false_2 (k' = key)) by exact Hk. simpl. rewrite IH.
      destruct (decide (n = key)) as [->|Hn].
      * rewrite (bool_decide_eq_false_2 (key = k')) by congruence.
        rewrite bool_decide_eq_true_2 by reflexivity. reflexivity.
      * rewrite (bool_decide_eq_false_2 (n = key)) by exact Hn. reflexivity.
Qed.

Lemma delete_docs_from_store (names : list string) :
  forall store acc,
  (delete_docs_from names store acc).2 =
  List.filter (fun d => negb (bool_decide (cd_source d ∈ map Some names))) store.
Proof.
  induction names as [|n names IH]; intros store acc; simpl.
  - induction store as [|d store IHs]; simpl; [reflexivity|].
    f_equal. exact IHs.
  - rewrite IH. unfold chroma_delete. rewrite filter_filter_and.
    apply filter_ext_eq. intros d.
    destruct (decide (cd_source d = Some n)) as [E|E].
    + rewrite (bool_decide_eq_true_2 (cd_source d = Some n)) by exact E.
      rewrite (bool_decide_eq_true_2 (cd_source d ∈ Some n :: map Some names))
        by (rewrite E; apply elem_of_cons; left; reflexivity). reflexivity.
    + rewrite (bool_decide_eq_false_2 (cd_source d = Some n)) by exact E. simpl.
      f_equal. apply bool_decide_ext. rewrite elem_of_cons. split; [tauto|].
      intros [H|H]; [contradiction|exact H].
Qed.

Lemma delete_docs_from_counts (names : list string) :
  forall store acc n,
  assoc n (delete_docs_from names store acc).1 =
  if bool_decide (n ∈ names) then
    Some (if bool_decide (length (List.filter (fun m => bool_decide (m = n)) names) = 1%nat)
          then length (List.filter (fun d => bool_decide (cd_source d = Some n)) store)
          else 0%nat)
  else assoc n acc.
Proof.
  induction names as [|n0 names IH]; intros store acc n; simpl.
  - try rewrite bool_decide_eq_false_2 by (apply not_elem_of_nil). reflexivity.
  - rewrite IH, chroma_delete_count, dict_set_assoc, chroma_delete_removed.
    destruct (decide (n = n0)) as [->|Hne].
    + rewrite (bool_decide_eq_true_2 (n0 ∈ n0 :: names))
        by (apply elem_of_cons; left; reflexivity).
      rewrite (bool_decide_eq_true_2 (n0 = n0)) by reflexivity. simpl.
      case_bool_decide as Hin.
      * f_equal. rewrite (bool_decide_eq_false_2 (S _ = 1%nat)).
        -- destruct (bool_decide (_ = 1%nat)); reflexivity.
        -- assert (0 < length (List.filter (fun m => bool_decide (m = n0)) names))%nat.
           { clear - Hin. induction names as [|x names IHn]; [apply elem_of_nil in Hin; contradiction|].
             simpl. apply elem_of_cons in Hin as [->|Hin].
             - rewrite bool_decide_eq_true_2 by reflexivity. simpl. lia.
             - destruct (bool_decide (x = n0)); simpl; [lia| exact (IHn Hin)]. }
           lia.
      * assert (Hz : length (List.filter (fun m => bool_decide (m = n0)) names) = 0%nat).
        { clear - Hin. induction names as [|x names IHn]; [reflexivity|].
          apply not_elem_of_cons in Hin as [Hx Hin]. simpl.
          rewrite bool_decide_eq_false_2 by congruence. exact (IHn Hin). }
        rewrite Hz. reflexivity.
    + rewrite (bool_decide_eq_false_2 (n = n0)) by exact Hne.
      rewrite (bool_decide_eq_false_2 (n0 = n)) by congruence. simpl.
      rewrite (bool_decide_ext (n ∈ n0 :: names) (n ∈ names)); [reflexivity|].
      rewrite elem_of_cons. split; [intros [H|H]; [contradiction|exact H]|tauto].
Qed.

(** A key found by [assoc] is in the association list. *)
Lemma assoc_in {A} (n : string) (v : A) (d : list (string * A)) :
  assoc n d = Some v -> (n, v) ∈ d.
Proof.
  induction d as [|[k' v'] d IH]; simpl; [discriminate|].
  case_bool_decide as H.
  - intros E. injection E as <-. subst. apply elem_of_cons. left. reflexivity.
  - intros E. apply elem_of_cons. right. exact (IH E).
Qed.

(** X9: [delete_docs] removes from the collection exactly the chunks
    whose source is one of the given names, and keeps every other chunk
    in its order. *)
Theorem delete_docs_store (doc_names : list string) (store : list ChromaDoc) :
  (delete_docs doc_names store).2 =
  List.filter (fun d => negb (bool_decide (cd_source d ∈ map Some doc_names))) store.
Proof. apply delete_docs_from_store. Qed.

(** X10: the counts [delete_docs] returns have one key per given name:
    a name given once is mapped to its number of chunks in the collection,
    a name given twice or more to 0 (its later deletion finds nothing and
    overwrites the first count). *)
Theorem delete_docs_counts (doc_names : list string) (store : list ChromaDoc) (n : string) :
  assoc n (delete_docs doc_names store).1 =
  if bool_decide (n ∈ doc_names) then
    Some (if bool_decide (occurrences n doc_names = 1%nat) then chunk_count n store else 0%nat)
  else None.
Proof.
  unfold delete_docs. rewrite delete_docs_from_counts. reflexivity.
Qed.

(** X11: [api_delete] answers 404 as soon as one given name has no chunk
    or is repeated, but only after [delete_docs] has run: the chunks of the
    other names are deleted all the same. *)
Theorem api_delete_404_after_deleting (doc_names : list string) (store : list ChromaDoc)
  (n : string) (Hn : n ∈ doc_names)
  (Hmiss : chunk_count n store = 0%nat \/ (2 <= occurrences n doc_names)%nat) :
  exists detail,
    api_delete doc_names store = (HTTPException 404 detail, (delete_docs doc_names store).2).
Proof.
  assert (Hz : assoc n (delete_docs doc_names store).1 = Some 0%nat).
  { unfold delete_docs. rewrite delete_docs_from_counts.
    rewrite bool_decide_eq_true_2 by exact Hn. f_equal.
    case_bool_decide as H1; [|reflexivity].
    destruct Hmiss as [H|H]; [exact H|]. unfold occurrences in H1, H. lia. }
  unfold api_delete.
  destruct (delete_docs doc_names store) as [counts store'] eqn:E. simpl in Hz |- *.
  apply assoc_in, list_elem_of_In in Hz.
  assert (Hnf : In n (map fst (List.filter (fun dc => Nat.eqb dc.2 0) counts))).
  { apply (in_map fst _ (n, 0%nat)). apply filter_In. split; [exact Hz|reflexivity]. }
  destruct (map fst (List.filter (fun dc => Nat.eqb dc.2 0) counts)) as [|x xs].
  - contradiction.
  - eexists. reflexivity.
Qed.

Lemma api_delete_404_after_deleting_witness :
  let store := [mkChromaDoc (Some "a.md") "A1"; mkChromaDoc (Some "a.md") "A2";
                mkChromaDoc (Some "c.md") "C"] in
  "b.md" ∈ ["a.md"; "b.md"] /\
  (chunk_count "b.md" store = 0%nat \/ (2 <= occurrences "b.md" ["a.md"; "b.md"])%nat) /\
  exists detail,
    api_delete ["a.md"; "b.md"] store
    = (HTTPException 404 detail, (delete_docs ["a.md"; "b.md"] store).2).
Proof.
  assert (Hin : "b.md" ∈ ["a.md"; "b.md"]) by (apply (bool_decide_unpack _); vm_compute; exact I).
  assert (Hz : chunk_count "b.md" [mkChromaDoc (Some "a.md") "A1"; mkChromaDoc (Some "a.md") "A2";
                mkChromaDoc (Some "c.md") "C"] = 0%nat
               \/ (2 <= occurrences "b.md" ["a.md"; "b.md"])%nat) by (left; vm_compute; reflexivity).
  split; [exact Hin|]. split; [exact Hz|].
  exact (api_delete_404_after_deleting _ _ "b.md" Hin Hz).
Defined.

(** ** Ingestion *)

Lemma list_ascii_of_string_append (s t : string) :
  String.list_ascii_of_string (s +:+ t) = String.list_ascii_of_string s ++ String.list_ascii_of_string t.
Proof. induction s as [|a s IH]; simpl; [reflexivity|]. f_equal. exact IH. Qed.

Lemma char_in_false_Forall (c : ascii) (s : string) :
  char_in c s = false <-> List.Forall (fun c' => c' <> c) (String.list_ascii_of_string s).
Proof.
  unfold char_in. rewrite List.Forall_forall. split.
  - intros H x Hx ->. assert (Ht : existsb (fun c' => Ascii.eqb c' c) (String.list_ascii_of_string s) = true).
    { apply existsb_exists. exists c. split; [exact Hx|apply Ascii.eqb_refl]. }
    congruence.
  - intros H. destruct (existsb _ _) eqn:E; [|reflexivity].
    apply existsb_exists in E as [x [Hx Hq]]. apply Ascii.eqb_eq in Hq. exfalso. exact (H x Hx Hq).
Qed.

Lemma basename_rev_no_slash (l r : list ascii) :
  List.Forall (fun c => c <> "/"%char) l -> basename_rev (l ++ "/"%char :: r) = l.
Proof.
  induction 1 as [|c l Hc Hl IH]; simpl; [reflexivity|].
  rewrite (proj2 (Ascii.eqb_neq c "/"%char) Hc). f_equal. exact IH.
Qed.

Lemma basename_rev_Forall (l : list ascii) : List.Forall (fun c => c <> "/"%char) (basename_rev l).
Proof.
  induction l as [|c l IH]; simpl; [constructor|].
  destruct (Ascii.eqb c "/"%char) eqn:E; [constructor|].
  constructor; [apply Ascii.eqb_neq; exact E|exact IH].
Qed.

Lemma basename_no_slash (p : string) : char_in "/"%char (basename p) = false.
Proof.
  apply char_in_false_Forall. unfold basename. rewrite String.list_ascii_of_string_of_list_ascii.
  apply List.Forall_rev, basename_rev_Forall.
Qed.

Lemma path_join_docs (n : string) :
  char_in "/"%char n = false -> path_join DOCS_DIR n = ("docs" +:+ "/" +:+ n)%string.
Proof.
  intros H. unfold path_join.
  assert (Hp : String.prefix "/" n = false).
  { destruct n as [|a n']; [reflexivity|]. cbn [String.prefix].
    destruct (Ascii.ascii_dec "/"%char a) as [<-|]; [|reflexivity].
    unfold char_in in H. simpl in H. try rewrite Ascii.eqb_refl in H. discriminate H. }
  rewrite Hp. reflexivity.
Qed.

(** A name without "/" is its own basename once joined to [DOCS_DIR]. *)
Lemma basename_docs (n : string) :
  char_in "/"%char n = false -> basename (path_join DOCS_DIR n) = n.
Proof.
  intros H. rewrite path_join_docs by exact H. unfold basename.
  rewrite !list_ascii_of_string_append, !rev_app_distr, <- !app_assoc.
  change (rev (String.list_ascii_of_string "/")) with ["/"%char]. cbn [app].
  rewrite (basename_rev_no_slash (rev (String.list_ascii_of_string n))).
  - rewrite rev_involutive. apply String.string_of_list_ascii_of_string.
  - apply List.Forall_rev. apply char_in_false_Forall. exact H.
Qed.

(** The chunks of one name whose file exists. *)
Lemma ingest_chunks_cons_file split fs n rest c :
  fs !! path_join DOCS_DIR n = Some (FsFile c) ->
  ingest_chunks split fs (n :: rest) =
  map (fun t => mkChromaDoc (Some (basename (path_join DOCS_DIR n))) t) (split c)
    ++ ingest_chunks split fs rest.
Proof.
  intros Hf. simpl. unfold isfile. rewrite Hf. simpl. unfold split_and_label. rewrite Hf.
  reflexivity.
Qed.

Lemma ingest_chunks_cons_nofile split fs n rest :
  (forall c, fs !! path_join DOCS_DIR n <> Some (FsFile c)) ->
  ingest_chunks split fs (n :: rest) = ingest_chunks split fs rest.
Proof.
  intros Hf. simpl. unfold isfile.
  destruct (fs !! path_join DOCS_DIR n) as [[c|]|] eqn:E; [|reflexivity|reflexivity].
  exfalso. exact (Hf c eq_refl).
Qed.

Lemma ingest_chunks_nil_iff split fs names :
  ingest_chunks split fs names = [] <->
  List.Forall (fun n => forall c, fs !! path_join DOCS_DIR n = Some (FsFile c) -> split c = []) names.
Proof.
  induction names as [|n rest IH].
  - split; intros; [constructor|reflexivity].
  - destruct (fs !! path_join DOCS_DIR n) as [[c|]|] eqn:E.
    + rewrite (ingest_chunks_cons_file split fs n rest c E). rewrite List.Forall_cons_iff.
      rewrite <- IH. split.
      * intros H. apply app_eq_nil in H as [H1 H2]. split; [|exact H2].
        intros c' Hc'. rewrite E in Hc'. injection Hc' as <-.
        destruct (split c); [reflexivity|discriminate H1].
      * intros [H1 H2]. rewrite H2, (H1 c E). reflexivity.
    + rewrite ingest_chunks_cons_nofile by (intros c; rewrite E; discriminate).
      rewrite List.Forall_cons_iff, IH. split; [|tauto].
      intros H. split; [|exact H]. intros c Hc. rewrite E in Hc. discriminate Hc.
    + rewrite ingest_chunks_cons_nofile by (intros c; rewrite E; discriminate).
      rewrite List.Forall_cons_iff, IH. split; [|tauto].
      intros H. split; [|exact H]. intros c Hc. rewrite E in Hc. discriminate Hc.
Qed.

Lemma ingest_chunks_labels split fs names :
  List.Forall (fun d => exists n c, n ∈ names /\ fs !! path_join DOCS_DIR n = Some (FsFile c) /\
                          cd_source d = Some (basename (path_join DOCS_DIR n)) /\ cd_text d ∈ split c)
    (ingest_chunks split fs names).
Proof.
  induction names as [|n rest IH]; [constructor|].
  assert (IH' : List.Forall (fun d => exists n' c, n' ∈ n :: rest /\ fs !! path_join DOCS_DIR n' = Some (FsFile c) /\
                          cd_source d = Some (basename (path_join DOCS_DIR n')) /\ cd_text d ∈ split c)
                (ingest_chunks split fs rest)).
  { eapply List.Forall_impl; [|exact IH]. intros d (n' & c & H1 & H2 & H3 & H4).
    exists n', c. split; [apply elem_of_cons; right; exact H1|tauto]. }
  destruct (fs !! path_join DOCS_DIR n) as [[c|]|] eqn:E.
  - rewrite (ingest_chunks_cons_file split fs n rest c E). apply List.Forall_app. split; [|exact IH'].
    apply List.Forall_forall. intros d Hd. apply in_map_iff in Hd as [t [<- Ht]].
    exists n, c. split; [apply elem_of_cons; left; reflexivity|]. split; [exact E|].
    split; [reflexivity|]. apply list_elem_of_In. exact Ht.
  - rewrite ingest_chunks_cons_nofile by (intros c; rewrite E; discriminate). exact IH'.
  - rewrite ingest_chunks_cons_nofile by (intros c; rewrite E; discriminate). exact IH'.
Qed.

Lemma chunk_count_app (n : string) (s1 s2 : list ChromaDoc) :
  chunk_count n (s1 ++ s2) = (chunk_count n s1 + chunk_count n s2)%nat.
Proof. unfold chunk_count. rewrite List.filter_app, length_app. reflexivity. Qed.

Lemma chunk_count_labelled (n m : string) (l : list string) :
  chunk_count n (map (fun t => mkChromaDoc (Some m) t) l) = if bool_decide (m = n) then length l else 0%nat.
Proof.
  unfold chunk_count. induction l as [|t l IH]; simpl.
  - destruct (bool_decide (m = n)); reflexivity.
  - destruct (decide (m = n)) as [->|Hne].
    + rewrite !bool_decide_eq_true_2 in * by reflexivity. simpl. rewrite IH. reflexivity.
    + rewrite !bool_decide_eq_false_2 in * by congruence. exact IH.
Qed.

Lemma chroma_delete_app (n : string) (s1 s2 : list ChromaDoc) :
  chroma_delete n (s1 ++ s2) = chroma_delete n s1 ++ chroma_delete n s2.
Proof. unfold chroma_delete. apply List.filter_app. Qed.

Lemma chroma_delete_none (n : string) (s : list ChromaDoc) :
  chunk_count n s = 0%nat -> chroma_delete n s = s.
Proof.
  unfold chunk_count, chroma_delete. induction s as [|d s IH]; simpl; [reflexivity|].
  destruct (bool_decide (cd_source d = Some n)); simpl; [discriminate|].
  intros H. f_equal. exact (IH H).
Qed.

Lemma delete_docs_single (n : string) (s : list ChromaDoc) :
  delete_docs [n] s = ([(n, chunk_count n s)], chroma_delete n s).
Proof.
  unfold delete_docs. simpl. rewrite chroma_delete_removed. reflexivity.
Qed.

Lemma api_ingest_single split fs n c store :
  fs !! path_join DOCS_DIR n = Some (FsFile c) -> split c <> [] ->
  api_ingest split fs [n] store =
  inr (HttpOk (mkIngestBody ("Ingested: " +:+ str_list_repr [n])%string (length (split c))),
       store ++ map (fun t => mkChromaDoc (Some (basename (path_join DOCS_DIR n))) t) (split c)).
Proof.
  intros Hf Hne. unfold api_ingest, ingest.
  rewrite (ingest_chunks_cons_file split fs n [] c Hf). simpl ingest_chunks. rewrite app_nil_r.
  destruct (split c) as [|t ts]; [contradiction|]. simpl. rewrite length_map. reflexivity.
Qed.

Lemma chroma_delete_labelled_same (n : string) (l : list string) :
  chroma_delete n (map (fun t => mkChromaDoc (Some n) t) l) = [].
Proof.
  unfold chroma_delete. induction l as [|t l IH]; simpl; [reflexivity|].
  rewrite bool_decide_eq_true_2 by reflexivity. exact IH.
Qed.

(** X12: [ingest] raises FileNotFoundError, leaving the collection as it
    was, exactly when no given name is a file of [docs/] whose text splits
    into at least one chunk; an empty list of names always fails. *)
Theorem ingest_fails_iff (split : string -> list string) (fs : FS)
  (doc_names : list string) (store : list ChromaDoc) :
  ingest split fs doc_names store = (inl (FileNotFoundError "No valid files to ingest."), store) <->
  List.Forall (fun n => forall c, fs !! path_join DOCS_DIR n = Some (FsFile c) -> split c = []) doc_names.
Proof.
  rewrite <- ingest_chunks_nil_iff. unfold ingest.
  destruct (ingest_chunks split fs doc_names) as [|d ds]; split; intros H;
    [reflexivity|reflexivity|discriminate H|discriminate H].
Qed.

(** X13: when [ingest] returns a count, the collection has been extended
    (appended to, nothing removed) by exactly that many chunks, at least
    one, and each new chunk is a piece of the text of a given name's file
    in [docs/], labelled with the basename of that file's path. *)
Theorem ingest_success_appends (split : string -> list string) (fs : FS)
  (doc_names : list string) (store store' : list ChromaDoc) (k : nat)
  (Hok : ingest split fs doc_names store = (inr k, store')) :
  exists added,
    store' = store ++ added /\ k = length added /\ (0 < k)%nat /\
    List.Forall (fun d => exists n c, n ∈ doc_names /\ fs !! path_join DOCS_DIR n = Some (FsFile c) /\
                   cd_source d = Some (basename (path_join DOCS_DIR n)) /\ cd_text d ∈ split c) added.
Proof.
  pose proof (ingest_chunks_labels split fs doc_names) as HL.
  unfold ingest in Hok. destruct (ingest_chunks split fs doc_names) as [|d ds] eqn:E;
    [discriminate Hok|].
  injection Hok as <- <-. exists (d :: ds). split; [reflexivity|]. split; [reflexivity|].
  split; [simpl; lia|exact HL].
Qed.

Lemma ingest_success_appends_witness :
  ingest (fun c => [c]) (<["docs/a.md" := FsFile "# A"]> (<["docs" := FsDir]> ∅))
    ["a.md"; "b.md"] [] = (inr 1%nat, [mkChromaDoc (Some "a.md") "# A"]) /\
  exists added,
    [mkChromaDoc (Some "a.md") "# A"] = [] ++ added /\ 1%nat = length added /\ (0 < 1)%nat /\
    List.Forall (fun d => exists n c, n ∈ ["a.md"; "b.md"] /\
                   (<["docs/a.md" := FsFile "# A"]> (<["docs" := FsDir]> ∅) : FS) !! path_join DOCS_DIR n = Some (FsFile c) /\
                   cd_source d = Some (basename (path_join DOCS_DIR n)) /\ cd_text d ∈ [c]) added.
Proof.
  assert (Hok : ingest (fun c => [c]) (<["docs/a.md" := FsFile "# A"]> (<["docs" := FsDir]> ∅))
    ["a.md"; "b.md"] [] = (inr 1%nat, [mkChromaDoc (Some "a.md") "# A"])) by (vm_compute; reflexivity).
  split; [exact Hok|].
  exact (ingest_success_appends (fun c => [c]) _ ["a.md"; "b.md"] [] _ 1%nat Hok).
Defined.

(** X14: through the endpoints, ingesting one name without "/" whose file
    splits into chunks and then deleting that name succeeds: [api_delete]
    reports the chunks the name had before plus the ones just ingested, and
    leaves the collection as it was without that name's chunks. *)
Theorem api_ingest_then_delete (split : string -> list string) (fs : FS) (n c : string)
  (store : list ChromaDoc)
  (Hname : char_in "/"%char n = false)
  (Hfile : fs !! path_join DOCS_DIR n = Some (FsFile c))
  (Hne : split c <> []) :
  exists store',
    api_ingest split fs [n] store =
      inr (HttpOk (mkIngestBody ("Ingested: " +:+ str_list_repr [n])%string (length (split c))), store') /\
    api_delete [n] store' =
      (HttpOk (mkDeleteBody ("Deleted: " +:+ str_list_repr [n])%string
                 [(n, (chunk_count n store + length (split c))%nat)]),
       chroma_delete n store).
Proof.
  eexists. split; [apply (api_ingest_single split fs n c store Hfile Hne)|].
  rewrite (basename_docs n Hname).
  unfold api_delete. rewrite delete_docs_single, chunk_count_app, chunk_count_labelled.
  rewrite bool_decide_eq_true_2 by reflexivity.
  rewrite chroma_delete_app, chroma_delete_labelled_same, app_nil_r.
  destruct (split c) as [|t ts]; [contradiction|]. simpl length.
  rewrite Nat.add_succ_r. reflexivity.
Qed.

Lemma api_ingest_then_delete_witness :
  char_in "/"%char "a.md" = false /\
  (<["docs/a.md" := FsFile "# A"]> (<["docs" := FsDir]> ∅) : FS) !! path_join DOCS_DIR "a.md" = Some (FsFile "# A") /\
  (fun c : string => [c]) "# A" <> [] /\
  exists store',
    api_ingest (fun c => [c]) (<["docs/a.md" := FsFile "# A"]> (<["docs" := FsDir]> ∅)) ["a.md"]
      [mkChromaDoc (Some "a.md") "old"; mkChromaDoc (Some "b.md") "B"] =
      inr (HttpOk (mkIngestBody ("Ingested: " +:+ str_list_repr ["a.md"])%string (length [ "# A" ])), store') /\
    api_delete ["a.md"] store' =
      (HttpOk (mkDeleteBody ("Deleted: " +:+ str_list_repr ["a.md"])%string
                 [("a.md", (chunk_count "a.md" [mkChromaDoc (Some "a.md") "old"; mkChromaDoc (Some "b.md") "B"]
                            + length ["# A"])%nat)]),
       chroma_delete "a.md" [mkChromaDoc (Some "a.md") "old"; mkChromaDoc (Some "b.md") "B"]).
Proof.
  assert (H1 : char_in "/"%char "a.md" = false) by reflexivity.
  assert (H2 : (<["docs/a.md" := FsFile "# A"]> (<["docs" := FsDir]> ∅) : FS) !! path_join DOCS_DIR "a.md"
               = Some (FsFile "# A")) by (vm_compute; reflexivity).
  assert (H3 : (fun c : string => [c]) "# A" <> []) by discriminate.
  split; [exact H1|]. split; [exact H2|]. split; [exact H3|].
  exact (api_ingest_then_delete (fun c => [c]) _ "a.md" "# A" _ H1 H2 H3).
Defined.

(** X15: a name containing "/" (a file in a subdirectory of [docs/], or an
    absolute path) is ingested, but its chunks are labelled with the file's
    basename, so deleting the same name finds none of them: [api_delete]
    answers 404 and the collection keeps the ingested chunks. *)
Theorem api_ingest_slash_name_undeletable (split : string -> list string) (fs : FS)
  (n c : string) (store : list ChromaDoc)
  (Hslash : char_in "/"%char n = true)
  (Hfile : fs !! path_join DOCS_DIR n = Some (FsFile c))
  (Hne : split c <> [])
  (Hnone : chunk_count n store = 0%nat) :
  exists store',
    api_ingest split fs [n] store =
      inr (HttpOk (mkIngestBody ("Ingested: " +:+ str_list_repr [n])%string (length (split c))), store') /\
    length store' = (length store + length (split c))%nat /\
    api_delete [n] store' =
      (HTTPException 404 ("No chunks found for: " +:+ str_list_repr [n])%string, store').
Proof.
  eexists. split; [apply (api_ingest_single split fs n c store Hfile Hne)|].
  split; [rewrite length_app, length_map; reflexivity|].
  assert (Hb : basename (path_join DOCS_DIR n) <> n).
  { intros E. pose proof (basename_no_slash (path_join DOCS_DIR n)) as H. rewrite E in H. congruence. }
  assert (Hz : chunk_count n (store ++ map (fun t => mkChromaDoc (Some (basename (path_join DOCS_DIR n))) t) (split c)) = 0%nat).
  { rewrite chunk_count_app, chunk_count_labelled, Hnone.
    rewrite bool_decide_eq_false_2 by exact Hb. reflexivity. }
  unfold api_delete. rewrite delete_docs_single, Hz, (chroma_delete_none n _ Hz). reflexivity.
Qed.

Lemma api_ingest_slash_name_undeletable_witness :
  char_in "/"%char "sub/a.md" = true /\
  (<["docs/sub/a.md" := FsFile "# A"]> (<["docs/sub" := FsDir]> (<["docs" := FsDir]> ∅)) : FS)
    !! path_join DOCS_DIR "sub/a.md" = Some (FsFile "# A") /\
  (fun c : string => [c]) "# A" <> [] /\
  chunk_count "sub/a.md" [] = 0%nat /\
  exists store',
    api_ingest (fun c => [c]) (<["docs/sub/a.md" := FsFile "# A"]> (<["docs/sub" := FsDir]> (<["docs" := FsDir]> ∅)))
      ["sub/a.md"] [] =
      inr (HttpOk (mkIngestBody ("Ingested: " +:+ str_list_repr ["sub/a.md"])%string (length ["# A"])), store') /\
    length store' = (length (@nil ChromaDoc) + length ["# A"])%nat /\
    api_delete ["sub/a.md"] store' =
      (HTTPException 404 ("No chunks found for: " +:+ str_list_repr ["sub/a.md"])%string, store').
Proof.
  assert (H1 : char_in "/"%char "sub/a.md" = true) by reflexivity.
  assert (H2 : (<["docs/sub/a.md" := FsFile "# A"]> (<["docs/sub" := FsDir]> (<["docs" := FsDir]> ∅)) : FS)
    !! path_join DOCS_DIR "sub/a.md" = Some (FsFile "# A")) by (vm_compute; reflexivity).
  assert (H3 : (fun c : string => [c]) "# A" <> []) by discriminate.
  assert (H4 : chunk_count "sub/a.md" [] = 0%nat) by reflexivity.
  split; [exact H1|]. split; [exact H2|]. split; [exact H3|]. split; [exact H4|].
  exact (api_ingest_slash_name_undeletable (fun c => [c]) _ "sub/a.md" "# A" [] H1 H2 H3 H4).
Defined.

(** ** Upload *)














(** ** Listing *)

Lemma occurrences_not_in (s : string) (l : list string) : s ∉ l -> occurrences s l = 0%nat.
Proof.
  unfold occurrences. induction l as [|x l IH]; intros H; [reflexivity|].
  apply not_elem_of_cons in H as [Hx H]. simpl.
  rewrite bool_decide_eq_false_2 by congruence. exact (IH H).
Qed.

Lemma occurrences_pos (s : string) (l : list string) : s ∈ l -> (0 < occurrences s l)%nat.
Proof.
  unfold occurrences. induction l as [|x l IH]; intros H; [apply elem_of_nil in H; contradiction|].
  simpl. apply elem_of_cons in H as [->|H].
  - rewrite bool_decide_eq_true_2 by reflexivity. simpl. lia.
  - destruct (bool_decide (x = s)); simpl; [lia|exact (IH H)].
Qed.

Lemma occurrences_cons (s x : string) (l : list string) :
  occurrences s (x :: l) = if bool_decide (x = s) then S (occurrences s l) else occurrences s l.
Proof. unfold occurrences. simpl. destruct (bool_decide (x = s)); reflexivity. Qed.

Lemma source_count_occurrences (s : string) (store : list ChromaDoc) :
  source_count s store = occurrences s (map metadata_source store).
Proof.
  unfold source_count, occurrences. induction store as [|d store IH]; simpl; [reflexivity|].
  destruct (bool_decide (metadata_source d = s)); simpl; rewrite IH; reflexivity.
Qed.

Lemma counter_add_assoc (s x : string) (c : list (string * nat)) :
  assoc s (counter_add x c) =
  if bool_decide (s = x) then Some (S (default 0%nat (assoc s c))) else assoc s c.
Proof.
  induction c as [|[s' n] c IH]; simpl.
  - destruct (bool_decide (s = x)); reflexivity.
  - destruct (decide (s' = x)) as [->|Hne].
    + rewrite (bool_decide_eq_true_2 (x = x)) by reflexivity. simpl.
      destruct (decide (s = x)) as [->|Hs].
      * rewrite !bool_decide_eq_true_2 by reflexivity. reflexivity.
      * rewrite !bool_decide_eq_false_2 by exact Hs. reflexivity.
    + rewrite (bool_decide_eq_false_2 (s' = x)) by exact Hne. simpl. rewrite IH.
      destruct (decide (s = s')) as [->|Hs].
      * rewrite (bool_decide_eq_true_2 (s' = s')) by reflexivity.
        rewrite (bool_decide_eq_false_2 (s' = x)) by exact Hne. reflexivity.
      * rewrite (bool_decide_eq_false_2 (s = s')) by exact Hs. reflexivity.
Qed.

Lemma counter_fold_assoc (s : string) (l : list string) :
  forall c,
  assoc s (foldl (fun c x => counter_add x c) c l) =
  if bool_decide (s ∈ l) then Some (default 0%nat (assoc s c) + occurrences s l)%nat else assoc s c.
Proof.
  induction l as [|x l IH]; intros c; simpl foldl.
  - rewrite bool_decide_eq_false_2 by apply not_elem_of_nil. reflexivity.
  - rewrite IH, counter_add_assoc, occurrences_cons.
    destruct (decide (s = x)) as [->|Hs].
    + rewrite (bool_decide_eq_true_2 (x = x)) by reflexivity.
      rewrite (bool_decide_eq_true_2 (x ∈ x :: l)) by (apply elem_of_cons; left; reflexivity).
      simpl. destruct (decide (x ∈ l)) as [Hin|Hin].
      * rewrite bool_decide_eq_true_2 by exact Hin. f_equal. lia.
      * rewrite bool_decide_eq_false_2 by exact Hin. rewrite (occurrences_not_in x l Hin).
        f_equal. lia.
    + rewrite (bool_decide_eq_false_2 (s = x)) by exact Hs.
      rewrite (bool_decide_eq_false_2 (x = s)) by congruence.
      rewrite (bool_decide_ext (s ∈ x :: l) (s ∈ l)); [reflexivity|].
      rewrite elem_of_cons. split; [intros [H|H]; [contradiction|exact H]|tauto].
Qed.

Lemma counter_assoc (s : string) (l : list string) :
  assoc s (counter l) = if bool_decide (s ∈ l) then Some (occurrences s l) else None.
Proof. unfold counter. rewrite counter_fold_assoc. reflexivity. Qed.

Lemma counter_add_keys (x : string) (c : list (string * nat)) :
  map fst (counter_add x c) = if bool_decide (x ∈ map fst c) then map fst c else map fst c ++ [x].
Proof.
  induction c as [|[s' n] c IH]; simpl.
  - reflexivity.
  - destruct (decide (s' = x)) as [->|Hne].
    + rewrite (bool_decide_eq_true_2 (x = x)) by reflexivity.
      rewrite bool_decide_eq_true_2 by (apply elem_of_cons; left; reflexivity). reflexivity.
    + rewrite (bool_decide_eq_false_2 (s' = x)) by exact Hne. simpl. rewrite IH.
      rewrite (bool_decide_ext (x ∈ s' :: map fst c) (x ∈ map fst c)).
      * destruct (bool_decide (x ∈ map fst c)); reflexivity.
      * rewrite elem_of_cons. split; [intros [H|H]; [congruence|exact H]|tauto].
Qed.

Lemma counter_fold_NoDup (l : list string) :
  forall c, NoDup (map fst c) -> NoDup (map fst (foldl (fun c x => counter_add x c) c l)).
Proof.
  induction l as [|x l IH]; intros c Hc; simpl foldl; [exact Hc|].
  apply IH. rewrite counter_add_keys. case_bool_decide as Hx; [exact Hc|].
  apply NoDup_app. split; [exact Hc|]. split; [|apply NoDup_singleton].
  intros y Hy Hy'. apply list_elem_of_singleton in Hy'. subst. contradiction.
Qed.

Lemma counter_add_sum (x : string) (c : list (string * nat)) :
  list_sum (map snd (counter_add x c)) = S (list_sum (map snd c)).
Proof.
  induction c as [|[s' n] c IH]; simpl; [reflexivity|].
  destruct (bool_decide (s' = x)); simpl; [reflexivity|]. rewrite IH. lia.
Qed.

Lemma counter_fold_sum (l : list string) :
  forall c, list_sum (map snd (foldl (fun c x => counter_add x c) c l)) = (list_sum (map snd c) + length l)%nat.
Proof.
  induction l as [|x l IH]; intros c; simpl foldl; [simpl; lia|].
  rewrite IH, counter_add_sum. simpl. lia.
Qed.

Lemma assoc_of_elem {A} (k : string) (v : A) (c : list (string * A)) :
  NoDup (map fst c) -> (k, v) ∈ c -> assoc k c = Some v.
Proof.
  induction c as [|[k' v'] c IH]; intros Hnd Hin; [apply elem_of_nil in Hin; contradiction|].
  simpl in Hnd |- *. apply NoDup_cons in Hnd as [Hk Hnd].
  apply elem_of_cons in Hin as [E|Hin].
  - injection E as -> ->. rewrite bool_decide_eq_true_2 by reflexivity. reflexivity.
  - rewrite bool_decide_eq_false_2; [exact (IH Hnd Hin)|].
    intros ->. apply Hk. apply list_elem_of_In. apply (in_map fst c (k', v)). apply list_elem_of_In. exact Hin.
Qed.

Lemma summarize_chroma_NoDup (store : list ChromaDoc) : NoDup (map fst (summarize_chroma store)).
Proof. apply counter_fold_NoDup. constructor. Qed.

Lemma summarize_chroma_elem (store : list ChromaDoc) (s : string) (k : nat) :
  (s, k) ∈ summarize_chroma store -> s ∈ map metadata_source store /\ k = source_count s store.
Proof.
  intros H. pose proof (assoc_of_elem s k _ (summarize_chroma_NoDup store) H) as Ha.
  unfold summarize_chroma in Ha. rewrite counter_assoc in Ha.
  case_bool_decide as Hin; [|discriminate Ha]. injection Ha as <-.
  split; [exact Hin|]. rewrite source_count_occurrences. reflexivity.
Qed.

(** X17: [summarize_chroma] lists every source of the collection once
    (chunks without a source as "UNKNOWN"), with the number of its chunks;
    a source with no chunk is absent, and the counts add up to the size of
    the collection. *)
Theorem summarize_chroma_counts (store : list ChromaDoc) :
  NoDup (map fst (summarize_chroma store)) /\
  (forall s, assoc s (summarize_chroma store) =
             if bool_decide (s ∈ map metadata_source store) then Some (source_count s store) else None) /\
  list_sum (map snd (summarize_chroma store)) = length store.
Proof.
  split; [apply summarize_chroma_NoDup|]. split.
  - intros s. unfold summarize_chroma. rewrite counter_assoc, source_count_occurrences. reflexivity.
  - unfold summarize_chroma, counter. rewrite counter_fold_sum, length_map. reflexivity.
Qed.

(** X18: every entry of the [/rag/list] answer reports the true number of
    chunks of its name, and "ingested" exactly when that number is
    positive; an entry carries the note "file missing in docs/" exactly
    when its name is not among the listed .md files; and every source of
    the collection appears in the answer. *)
Theorem rag_list_entries (entries : list (string * bool)) (store : list ChromaDoc) :
  let files := map fst (List.filter (fun e => e.2 && ends_with ".md" e.1) entries) in
  List.Forall (fun le => le_chunks le = source_count (le_filename le) store /\
                         le_ingested le = Nat.ltb 0 (le_chunks le) /\
                         (le_note le = None <-> le_filename le ∈ files))
    (rag_list entries store) /\
  (forall d, d ∈ store -> metadata_source d ∈ map le_filename (rag_list entries store)).
Proof.
  intros files. unfold rag_list. fold files. split.
  - apply List.Forall_app. split.
    + apply List.Forall_forall. intros le Hle. apply in_map_iff in Hle as [f [<- Hf]]. simpl.
      assert (Hc : default 0%nat (assoc f (summarize_chroma store)) = source_count f store).
      { unfold summarize_chroma. rewrite counter_assoc, source_count_occurrences.
        case_bool_decide as Hin; [reflexivity|]. simpl. rewrite occurrences_not_in by exact Hin. reflexivity. }
      split; [exact Hc|]. split; [reflexivity|].
      split; [intros _; apply list_elem_of_In; exact Hf|reflexivity].
    + apply List.Forall_forall. intros le Hle. apply in_map_iff in Hle as [[s k] [<- Hsk]]. simpl.
      apply filter_In in Hsk as [Hsk Hnot]. simpl in Hnot.
      apply list_elem_of_In, summarize_chroma_elem in Hsk as [Hin ->].
      split; [reflexivity|]. split.
      * rewrite source_count_occurrences. symmetry. apply Nat.ltb_lt, occurrences_pos. exact Hin.
      * split; [discriminate|]. intros Hf. rewrite bool_decide_eq_true_2 in Hnot by exact Hf. discriminate Hnot.
  - intros d Hd. rewrite map_app, elem_of_app.
    destruct (decide (metadata_source d ∈ files)) as [Hf|Hf].
    + left. rewrite map_map. simpl. rewrite map_id. exact Hf.
    + right. apply list_elem_of_In, in_map_iff.
      assert (Ha : assoc (metadata_source d) (summarize_chroma store) =
                   Some (source_count (metadata_source d) store)).
      { unfold summarize_chroma. rewrite counter_assoc, source_count_occurrences.
        rewrite bool_decide_eq_true_2; [reflexivity|].
        apply list_elem_of_In, in_map, list_elem_of_In. exact Hd. }
      apply assoc_in, list_elem_of_In in Ha.
      exists (mkListEntry (metadata_source d) (source_count (metadata_source d) store) true
                (Some "Ingested, but file missing in docs/")).
      split; [reflexivity|].
      apply (in_map (fun sc : string * nat => mkListEntry sc.1 sc.2 true (Some "Ingested, but file missing in docs/"))
               _ (metadata_source d, source_count (metadata_source d) store)).
      apply filter_In. split; [exact Ha|]. simpl. rewrite bool_decide_eq_false_2 by exact Hf. reflexivity.
Qed.

(** ** The final scratchpad message of the stream *)

(** X19: for a scratchpad of (request, result) pairs, the shape [invoke]
    returns, the summary that [token_generator] sends at the end of the
    stream has one entry per pair, and its names are, in order, the names
    of the first tool call of each request. *)
Theorem scratchpad_summary_names (J : Type) (json_loads : string -> option J) :
  forall sp : list BaseMessage, scratchpad_ok sp = true ->
  map fst (scratchpad_summary J json_loads sp) =
    flat_map (fun m => match m with AIMessage _ (t :: _) _ => [tc_name t] | _ => [] end) sp /\
  (2 * length (scratchpad_summary J json_loads sp) = length sp)%nat.
Proof.
  fix IH 1. intros [|m [|r rest]] Hok.
  - split; reflexivity.
  - destruct m as [| |c [|t ts] [i|]|]; discriminate Hok.
  - destruct m as [| |c [|t ts] [i|]|]; try discriminate Hok.
    destruct r as [| | | v j]; try discriminate Hok.
    simpl in Hok. apply andb_true_iff in Hok as [_ Hrest].
    destruct (IH rest Hrest) as [H1 H2]. simpl. split; [f_equal; exact H1|lia].
Qed.

Lemma scratchpad_summary_names_witness :
  scratchpad_ok [AIMessage EmptyString [mkToolCall "add" [] "c1"] (Some "c1"); ToolMessage (VStr "3") "c1";
                 AIMessage EmptyString [mkToolCall "final_answer" [] "c2"] (Some "c2"); ToolMessage (VStr "ok") "c2"] = true /\
  map fst (scratchpad_summary string (fun s => Some s)
    [AIMessage EmptyString [mkToolCall "add" [] "c1"] (Some "c1"); ToolMessage (VStr "3") "c1";
     AIMessage EmptyString [mkToolCall "final_answer" [] "c2"] (Some "c2"); ToolMessage (VStr "ok") "c2"]) =
    flat_map (fun m => match m with AIMessage _ (t :: _) _ => [tc_name t] | _ => [] end)
    [AIMessage EmptyString [mkToolCall "add" [] "c1"] (Some "c1"); ToolMessage (VStr "3") "c1";
     AIMessage EmptyString [mkToolCall "final_answer" [] "c2"] (Some "c2"); ToolMessage (VStr "ok") "c2"] /\
  (2 * length (scratchpad_summary string (fun s => Some s)
    [AIMessage EmptyString [mkToolCall "add" [] "c1"] (Some "c1"); ToolMessage (VStr "3") "c1";
     AIMessage EmptyString [mkToolCall "final_answer" [] "c2"] (Some "c2"); ToolMessage (VStr "ok") "c2"])
   = length [AIMessage EmptyString [mkToolCall "add" [] "c1"] (Some "c1"); ToolMessage (VStr "3") "c1";
     AIMessage EmptyString [mkToolCall "final_answer" [] "c2"] (Some "c2"); ToolMessage (VStr "ok") "c2"])%nat.
Proof.
  assert (H : scratchpad_ok [AIMessage EmptyString [mkToolCall "add" [] "c1"] (Some "c1"); ToolMessage (VStr "3") "c1";
                 AIMessage EmptyString [mkToolCall "final_answer" [] "c2"] (Some "c2"); ToolMessage (VStr "ok") "c2"] = true)
    by (vm_compute; reflexivity).
  split; [exact H|]. exact (scratchpad_summary_names string (fun s => Some s) _ H).
Defined.
